(** * Z-Image: the web front end and the command-line generator.

    A shallow embedding of
    - [web/components/GeneratorForm.tsx] ([roundTo64], [clamp64], the form
      state and [handleSubmit]),
    - [web/app/page.tsx] ([handleGenerate] and the gallery state),
    - [web/components/Lightbox.tsx] (keyboard and button navigation),
    - [generate.sh] (argument parsing, the prompt check and the command line
      handed to [sd-cli]),
    ([web/components/Gallery.tsx] and the wiring of the page included),
    together with a model, taken from the design document, of the back-end
    parts that have no source here (health mapping, the gateway's admission
    queue and the request translator). *)

From Stdlib Require Import ZArith QArith Qround Qminmax Qabs Qpower Qreduction.
From Stdlib Require Import Lia Lqa List Bool String Ascii Morphisms.
Import ListNotations.

Local Open Scope Z_scope.

(** ** JavaScript numbers

    A finite JavaScript [number] is a binary64 value, hence a rational; the
    model uses [Q].  [Math.round], [Math.min], [Math.max] and the division
    of a number by 64 are exact on finite numbers; products and quotients in
    general are rounded to the nearest binary64 value, which [binary64]
    does.  Overflow to Infinity (magnitudes from 2^1024 on) and NaN are
    outside the model. *)

Module JS.

Definition number := Q.
Bind Scope Q_scope with number.

(** [Math.round x]: the integer nearest to [x], ties towards +infinity. *)
Definition Math_round (x : number) : Z := Qfloor (x + (1 # 2))%Q.

(** 2 to the power [e], for any integer [e]. *)
Definition pow2 (e : Z) : Q := Qpower 2 e.

(** The integer part of the base-2 logarithm of a positive rational: the
    difference of the bit lengths of numerator and denominator, or one
    less. *)
Definition ilog2 (x : Q) : Z :=
  let k := Z.log2 (Qnum x) - Z.log2 (Z.pos (Qden x)) in
  if Qle_bool (pow2 k) x then k else k - 1.

(** The integer nearest to [x], a tie going to the even neighbour. *)
Definition round_half_even (x : Q) : Z :=
  let f := Qfloor x in
  match (x - inject_Z f ?= 1 # 2)%Q with
  | Lt => f
  | Gt => f + 1
  | Eq => if Z.even f then f else f + 1
  end.

(** The binary64 value nearest to [x] (round to nearest, ties to even): a
    significand of 53 bits, the last place never below 2^-1074. *)
Definition binary64 (x : Q) : number :=
  let r := Qred x in
  if Qeq_bool r 0 then 0%Q
  else
    let p := Z.max (ilog2 (Qabs r) - 52) (-1074) in
    (inject_Z (round_half_even (r / pow2 p)) * pow2 p)%Q.

(** [x * y] and [x / y] on numbers. *)
Definition mul (x y : number) : number := binary64 (x * y).
Definition div (x y : number) : number := binary64 (x / y).

(** A JavaScript string is a sequence of UTF-16 code units. *)
Definition code_unit := N.
Definition jsstring := list code_unit.

(** An ASCII literal as a JavaScript string. *)
Definition lit (s : string) : jsstring :=
  List.map N_of_ascii (list_ascii_of_string s).

(** WhiteSpace and LineTerminator code points, the ones [String.prototype.trim]
    strips: TAB, LF, VT, FF, CR, SP, NBSP, U+1680, U+2000..U+200A, LS, PS,
    U+202F, U+205F, U+3000 and the BOM. *)
Definition is_trimmed_unit (c : code_unit) : bool :=
  ((9 <=? c) && (c <=? 13) || (c =? 32) || (c =? 160) || (c =? 5760)
   || (8192 <=? c) && (c <=? 8202) || (c =? 8232) || (c =? 8233)
   || (c =? 8239) || (c =? 8287) || (c =? 12288) || (c =? 65279))%N.

Fixpoint trimStart (s : jsstring) : jsstring :=
  match s with
  | c :: s' => if is_trimmed_unit c then trimStart s' else s
  | [] => []
  end.

Definition trimEnd (s : jsstring) : jsstring := rev (trimStart (rev s)).

Definition trim (s : jsstring) : jsstring := trimEnd (trimStart s).

(** Truthiness of a string: the empty string is the only falsy one. *)
Definition truthy (s : jsstring) : bool :=
  match s with [] => false | _ :: _ => true end.

(** Every code unit of [s] is one that [trim] strips. *)
Definition all_blank (s : jsstring) : bool := forallb is_trimmed_unit s.

(** [a === b] on strings. *)
Fixpoint streq (a b : jsstring) : bool :=
  match a, b with
  | [], [] => true
  | x :: a', y :: b' => (x =? y)%N && streq a' b'
  | _, _ => false
  end.

(** [s.startsWith(p)]. *)
Fixpoint startsWith (s p : jsstring) : bool :=
  match p, s with
  | [], _ => true
  | y :: p', x :: s' => (x =? y)%N && startsWith s' p'
  | _ :: _, [] => false
  end.

(** [xs.find(pred)]. *)
Fixpoint find {A} (pred : A -> bool) (xs : list A) : option A :=
  match xs with
  | [] => None
  | x :: xs' => if pred x then Some x else find pred xs'
  end.

End JS.

(** ** lib/types.ts, as far as the components use it *)

Module Types.

Import JS.

Inductive GenerationMode := txt2img | img2img | inpaint.

(** A browser [File]: its MIME type and its bytes. *)
Record File := { file_type : jsstring; file_bytes : list N }.

(** The object literal [handleSubmit] builds, field for field. *)
Record GenerationValues := {
  mode : GenerationMode;
  prompt : jsstring;
  negative_prompt : jsstring;
  width : number;
  height : number;
  steps : number;
  cfg_scale : number;
  seed : number;
  batch_size : number;
  sampler_name : jsstring;
  scheduler : jsstring;
  clip_skip : number;
  strength : number;
  image : option File;
  mask : option File
}.

(** An entry of the [ASPECT_RATIOS] table. *)
Record AspectRatio := { label : jsstring; ratio_width : number; ratio_height : number }.

End Types.

(** ** GeneratorForm.tsx: rounding and clamping of a dimension *)

Module GeneratorForm.

Import JS.

(** [Math.round(n / 64) * 64].  The result of [Math.round] is an integer and
    stays one through the multiplication, [Math.min] and [Math.max], so the
    results are typed in [Z]. *)
Definition roundTo64 (n : number) : Z := Math_round (n / 64)%Q * 64.

Definition clamp64 (n : number) : Z := Z.max 64 (Z.min 2048 (roundTo64 n)).

(** A dimension the generator accepts: a multiple of 64 within [64, 2048]. *)
Definition valid_dim (d : Z) : Prop := (64 | d) /\ 64 <= d <= 2048.

Definition valid_dimb (d : Z) : bool :=
  (d mod 64 =? 0) && (64 <=? d) && (d <=? 2048).

(** The component's [useState] cells, under the names the source gives them. *)
Record State := {
  mode : Types.GenerationMode;
  prompt : jsstring;
  negativePrompt : jsstring;
  selectedRatio : jsstring;
  width : number;
  height : number;
  steps : number;
  cfgScale : number;
  seed : number;
  batchSize : number;
  samplerName : jsstring;
  scheduler : jsstring;
  clipSkip : number;
  strength : number;
  showAdvanced : bool;
  image : option Types.File;
  mask : option Types.File;
  imagePreview : option jsstring;
  maskPreview : option jsstring
}.

(** The initial values passed to [useState]. *)
Definition initial : State := {|
  mode := Types.txt2img;
  prompt := [];
  negativePrompt := [];
  selectedRatio := lit "1:1";
  width := 1024%Q;
  height := 1024%Q;
  steps := 8%Q;
  cfgScale := 1%Q;
  seed := (-1)%Q;
  batchSize := 1%Q;
  samplerName := [];
  scheduler := [];
  clipSkip := (-1)%Q;
  strength := (3 # 4)%Q;   (* 0.75 *)
  showAdvanced := false;
  image := None;
  mask := None;
  imagePreview := None;
  maskPreview := None
|}.

(** The setters returned by [useState]. *)
Definition setMode (m : Types.GenerationMode) (st : State) : State :=
  {| mode := m; prompt := prompt st; negativePrompt := negativePrompt st;
     selectedRatio := selectedRatio st; width := width st;
     height := height st; steps := steps st; cfgScale := cfgScale st;
     seed := seed st; batchSize := batchSize st;
     samplerName := samplerName st; scheduler := scheduler st;
     clipSkip := clipSkip st; strength := strength st;
     showAdvanced := showAdvanced st; image := image st; mask := mask st;
     imagePreview := imagePreview st; maskPreview := maskPreview st |}.

Definition setPrompt (p : jsstring) (st : State) : State :=
  {| mode := mode st; prompt := p; negativePrompt := negativePrompt st;
     selectedRatio := selectedRatio st; width := width st;
     height := height st; steps := steps st; cfgScale := cfgScale st;
     seed := seed st; batchSize := batchSize st;
     samplerName := samplerName st; scheduler := scheduler st;
     clipSkip := clipSkip st; strength := strength st;
     showAdvanced := showAdvanced st; image := image st; mask := mask st;
     imagePreview := imagePreview st; maskPreview := maskPreview st |}.

Definition setNegativePrompt (p : jsstring) (st : State) : State :=
  {| mode := mode st; prompt := prompt st; negativePrompt := p;
     selectedRatio := selectedRatio st; width := width st;
     height := height st; steps := steps st; cfgScale := cfgScale st;
     seed := seed st; batchSize := batchSize st;
     samplerName := samplerName st; scheduler := scheduler st;
     clipSkip := clipSkip st; strength := strength st;
     showAdvanced := showAdvanced st; image := image st; mask := mask st;
     imagePreview := imagePreview st; maskPreview := maskPreview st |}.

Definition setSelectedRatio (l : jsstring) (st : State) : State :=
  {| mode := mode st; prompt := prompt st;
     negativePrompt := negativePrompt st; selectedRatio := l;
     width := width st; height := height st; steps := steps st;
     cfgScale := cfgScale st; seed := seed st; batchSize := batchSize st;
     samplerName := samplerName st; scheduler := scheduler st;
     clipSkip := clipSkip st; strength := strength st;
     showAdvanced := showAdvanced st; image := image st; mask := mask st;
     imagePreview := imagePreview st; maskPreview := maskPreview st |}.

Definition setWidth (w : number) (st : State) : State :=
  {| mode := mode st; prompt := prompt st;
     negativePrompt := negativePrompt st; selectedRatio := selectedRatio st;
     width := w; height := height st; steps := steps st;
     cfgScale := cfgScale st; seed := seed st; batchSize := batchSize st;
     samplerName := samplerName st; scheduler := scheduler st;
     clipSkip := clipSkip st; strength := strength st;
     showAdvanced := showAdvanced st; image := image st; mask := mask st;
     imagePreview := imagePreview st; maskPreview := maskPreview st |}.

Definition setHeight (h : number) (st : State) : State :=
  {| mode := mode st; prompt := prompt st;
     negativePrompt := negativePrompt st; selectedRatio := selectedRatio st;
     width := width st; height := h; steps := steps st;
     cfgScale := cfgScale st; seed := seed st; batchSize := batchSize st;
     samplerName := samplerName st; scheduler := scheduler st;
     clipSkip := clipSkip st; strength := strength st;
     showAdvanced := showAdvanced st; image := image st; mask := mask st;
     imagePreview := imagePreview st; maskPreview := maskPreview st |}.

Definition setSteps (n : number) (st : State) : State :=
  {| mode := mode st; prompt := prompt st;
     negativePrompt := negativePrompt st; selectedRatio := selectedRatio st;
     width := width st; height := height st; steps := n;
     cfgScale := cfgScale st; seed := seed st; batchSize := batchSize st;
     samplerName := samplerName st; scheduler := scheduler st;
     clipSkip := clipSkip st; strength := strength st;
     showAdvanced := showAdvanced st; image := image st; mask := mask st;
     imagePreview := imagePreview st; maskPreview := maskPreview st |}.

Definition setCfgScale (n : number) (st : State) : State :=
  {| mode := mode st; prompt := prompt st;
     negativePrompt := negativePrompt st; selectedRatio := selectedRatio st;
     width := width st; height := height st; steps := steps st;
     cfgScale := n; seed := seed st; batchSize := batchSize st;
     samplerName := samplerName st; scheduler := scheduler st;
     clipSkip := clipSkip st; strength := strength st;
     showAdvanced := showAdvanced st; image := image st; mask := mask st;
     imagePreview := imagePreview st; maskPreview := maskPreview st |}.

Definition setSeed (n : number) (st : State) : State :=
  {| mode := mode st; prompt := prompt st;
     negativePrompt := negativePrompt st; selectedRatio := selectedRatio st;
     width := width st; height := height st; steps := steps st;
     cfgScale := cfgScale st; seed := n; batchSize := batchSize st;
     samplerName := samplerName st; scheduler := scheduler st;
     clipSkip := clipSkip st; strength := strength st;
     showAdvanced := showAdvanced st; image := image st; mask := mask st;
     imagePreview := imagePreview st; maskPreview := maskPreview st |}.

Definition setBatchSize (n : number) (st : State) : State :=
  {| mode := mode st; prompt := prompt st;
     negativePrompt := negativePrompt st; selectedRatio := selectedRatio st;
     width := width st; height := height st; steps := steps st;
     cfgScale := cfgScale st; seed := seed st; batchSize := n;
     samplerName := samplerName st; scheduler := scheduler st;
     clipSkip := clipSkip st; strength := strength st;
     showAdvanced := showAdvanced st; image := image st; mask := mask st;
     imagePreview := imagePreview st; maskPreview := maskPreview st |}.

Definition setSamplerName (x : jsstring) (st : State) : State :=
  {| mode := mode st; prompt := prompt st;
     negativePrompt := negativePrompt st; selectedRatio := selectedRatio st;
     width := width st; height := height st; steps := steps st;
     cfgScale := cfgScale st; seed := seed st; batchSize := batchSize st;
     samplerName := x; scheduler := scheduler st; clipSkip := clipSkip st;
     strength := strength st; showAdvanced := showAdvanced st;
     image := image st; mask := mask st; imagePreview := imagePreview st;
     maskPreview := maskPreview st |}.

Definition setScheduler (x : jsstring) (st : State) : State :=
  {| mode := mode st; prompt := prompt st;
     negativePrompt := negativePrompt st; selectedRatio := selectedRatio st;
     width := width st; height := height st; steps := steps st;
     cfgScale := cfgScale st; seed := seed st; batchSize := batchSize st;
     samplerName := samplerName st; scheduler := x; clipSkip := clipSkip st;
     strength := strength st; showAdvanced := showAdvanced st;
     image := image st; mask := mask st; imagePreview := imagePreview st;
     maskPreview := maskPreview st |}.

Definition setClipSkip (n : number) (st : State) : State :=
  {| mode := mode st; prompt := prompt st;
     negativePrompt := negativePrompt st; selectedRatio := selectedRatio st;
     width := width st; height := height st; steps := steps st;
     cfgScale := cfgScale st; seed := seed st; batchSize := batchSize st;
     samplerName := samplerName st; scheduler := scheduler st; clipSkip := n;
     strength := strength st; showAdvanced := showAdvanced st;
     image := image st; mask := mask st; imagePreview := imagePreview st;
     maskPreview := maskPreview st |}.

Definition setStrength (n : number) (st : State) : State :=
  {| mode := mode st; prompt := prompt st;
     negativePrompt := negativePrompt st; selectedRatio := selectedRatio st;
     width := width st; height := height st; steps := steps st;
     cfgScale := cfgScale st; seed := seed st; batchSize := batchSize st;
     samplerName := samplerName st; scheduler := scheduler st;
     clipSkip := clipSkip st; strength := n; showAdvanced := showAdvanced st;
     image := image st; mask := mask st; imagePreview := imagePreview st;
     maskPreview := maskPreview st |}.

Definition setShowAdvanced (b : bool) (st : State) : State :=
  {| mode := mode st; prompt := prompt st;
     negativePrompt := negativePrompt st; selectedRatio := selectedRatio st;
     width := width st; height := height st; steps := steps st;
     cfgScale := cfgScale st; seed := seed st; batchSize := batchSize st;
     samplerName := samplerName st; scheduler := scheduler st;
     clipSkip := clipSkip st; strength := strength st; showAdvanced := b;
     image := image st; mask := mask st; imagePreview := imagePreview st;
     maskPreview := maskPreview st |}.

Definition setImage (f : Types.File) (st : State) : State :=
  {| mode := mode st; prompt := prompt st;
     negativePrompt := negativePrompt st; selectedRatio := selectedRatio st;
     width := width st; height := height st; steps := steps st;
     cfgScale := cfgScale st; seed := seed st; batchSize := batchSize st;
     samplerName := samplerName st; scheduler := scheduler st;
     clipSkip := clipSkip st; strength := strength st;
     showAdvanced := showAdvanced st; image := Some f; mask := mask st;
     imagePreview := imagePreview st; maskPreview := maskPreview st |}.

Definition setMask (f : Types.File) (st : State) : State :=
  {| mode := mode st; prompt := prompt st;
     negativePrompt := negativePrompt st; selectedRatio := selectedRatio st;
     width := width st; height := height st; steps := steps st;
     cfgScale := cfgScale st; seed := seed st; batchSize := batchSize st;
     samplerName := samplerName st; scheduler := scheduler st;
     clipSkip := clipSkip st; strength := strength st;
     showAdvanced := showAdvanced st; image := image st; mask := Some f;
     imagePreview := imagePreview st; maskPreview := maskPreview st |}.

Definition setImagePreview (url : jsstring) (st : State) : State :=
  {| mode := mode st; prompt := prompt st;
     negativePrompt := negativePrompt st; selectedRatio := selectedRatio st;
     width := width st; height := height st; steps := steps st;
     cfgScale := cfgScale st; seed := seed st; batchSize := batchSize st;
     samplerName := samplerName st; scheduler := scheduler st;
     clipSkip := clipSkip st; strength := strength st;
     showAdvanced := showAdvanced st; image := image st; mask := mask st;
     imagePreview := Some url; maskPreview := maskPreview st |}.

Definition setMaskPreview (url : jsstring) (st : State) : State :=
  {| mode := mode st; prompt := prompt st;
     negativePrompt := negativePrompt st; selectedRatio := selectedRatio st;
     width := width st; height := height st; steps := steps st;
     cfgScale := cfgScale st; seed := seed st; batchSize := batchSize st;
     samplerName := samplerName st; scheduler := scheduler st;
     clipSkip := clipSkip st; strength := strength st;
     showAdvanced := showAdvanced st; image := image st; mask := mask st;
     imagePreview := imagePreview st; maskPreview := Some url |}.

(** [onChange] of the custom width and height inputs, on the number
    [Number(e.target.value)]. *)
Definition onWidthChange (v : number) (st : State) : State :=
  setWidth (inject_Z (clamp64 v)) st.

Definition onHeightChange (v : number) (st : State) : State :=
  setHeight (inject_Z (clamp64 v)) st.

(** [handleFileDrop(setter, previewSetter)]: the first dropped file is taken
    when its type starts with ["image/"]; [url] is what
    [URL.createObjectURL] answers. *)
Definition handleFileDrop (setter : Types.File -> State -> State)
    (previewSetter : jsstring -> State -> State)
    (files : list Types.File) (url : jsstring) (st : State) : State :=
  match files with
  | file :: _ =>
      if startsWith (Types.file_type file) (lit "image/")
      then previewSetter url (setter file st) else st
  | [] => st
  end.

(** [handleFileSelect(setter, previewSetter)]: the first chosen file, whatever
    its type. *)
Definition handleFileSelect (setter : Types.File -> State -> State)
    (previewSetter : jsstring -> State -> State)
    (files : list Types.File) (url : jsstring) (st : State) : State :=
  match files with
  | file :: _ => previewSetter url (setter file st)
  | [] => st
  end.

(** What the user can do to the form besides submitting it; a number is the
    [Number(e.target.value)] of the input changed. *)
Inductive Event :=
| ClickMode (m : Types.GenerationMode)
| ChangePrompt (p : jsstring)
| ChangeNegativePrompt (p : jsstring)
| ClickRatio (l : jsstring)
| ClickCustom
| ChangeWidth (v : number)
| ChangeHeight (v : number)
| DropImage (files : list Types.File) (url : jsstring)
| SelectImage (files : list Types.File) (url : jsstring)
| DropMask (files : list Types.File) (url : jsstring)
| SelectMask (files : list Types.File) (url : jsstring)
| ChangeStrength (v : number)
| ToggleAdvanced
| ChangeSampler (x : jsstring)
| ChangeScheduler (x : jsstring)
| ChangeSteps (v : number)
| ChangeCfgScale (v : number)
| ChangeSeed (v : number)
| ChangeBatchSize (v : number)
| ChangeClipSkip (v : number).

(** The request fields that have a default. *)
Inductive Field :=
| FWidth | FHeight | FSteps | FCfgScale | FSeed | FBatchSize
| FSamplerName | FScheduler | FClipSkip | FStrength.

(** [sets e f]: the handler of [e] may write the state cell behind [f]. *)
Definition sets (e : Event) (f : Field) : bool :=
  match e, f with
  | ClickRatio _, FWidth | ClickRatio _, FHeight
  | ChangeWidth _, FWidth | ChangeHeight _, FHeight
  | ChangeSteps _, FSteps | ChangeCfgScale _, FCfgScale
  | ChangeSeed _, FSeed | ChangeBatchSize _, FBatchSize
  | ChangeSampler _, FSamplerName | ChangeScheduler _, FScheduler
  | ChangeClipSkip _, FClipSkip | ChangeStrength _, FStrength => true
  | _, _ => false
  end.

(** The value a request carries for a field, and the value the form starts
    that field with. *)
Inductive FieldValue := Num (n : number) | Str (x : jsstring).

Definition field_of (f : Field) (v : Types.GenerationValues) : FieldValue :=
  match f with
  | FWidth => Num (Types.width v)
  | FHeight => Num (Types.height v)
  | FSteps => Num (Types.steps v)
  | FCfgScale => Num (Types.cfg_scale v)
  | FSeed => Num (Types.seed v)
  | FBatchSize => Num (Types.batch_size v)
  | FSamplerName => Str (Types.sampler_name v)
  | FScheduler => Str (Types.scheduler v)
  | FClipSkip => Num (Types.clip_skip v)
  | FStrength => Num (Types.strength v)
  end.

Definition default_of (f : Field) : FieldValue :=
  match f with
  | FWidth | FHeight => Num 1024%Q
  | FSteps => Num 8%Q
  | FCfgScale => Num 1%Q
  | FSeed => Num (-1)%Q
  | FBatchSize => Num 1%Q
  | FSamplerName | FScheduler => Str []
  | FClipSkip => Num (-1)%Q
  | FStrength => Num (3 # 4)%Q
  end.

(** The state cell behind a field. *)
Definition cell_of (f : Field) (st : State) : FieldValue :=
  match f with
  | FWidth => Num (width st)
  | FHeight => Num (height st)
  | FSteps => Num (steps st)
  | FCfgScale => Num (cfgScale st)
  | FSeed => Num (seed st)
  | FBatchSize => Num (batchSize st)
  | FSamplerName => Str (samplerName st)
  | FScheduler => Str (scheduler st)
  | FClipSkip => Num (clipSkip st)
  | FStrength => Num (strength st)
  end.

(** A number that is a valid dimension. *)
Definition valid_number (x : number) : Prop :=
  exists d : Z, (x == inject_Z d)%Q /\ valid_dim d.

Section WithRatios.

(** The table [ASPECT_RATIOS] of lib/types.ts is taken as given. *)
Variable ASPECT_RATIOS : list Types.AspectRatio.

Definition handleRatioSelect (l : jsstring) (st : State) : State :=
  let st1 := setSelectedRatio l st in
  match find (fun r => streq (Types.label r) l) ASPECT_RATIOS with
  | Some ratio => setHeight (Types.ratio_height ratio)
                    (setWidth (Types.ratio_width ratio) st1)
  | None => st1
  end.

(** The handler each event runs. *)
Definition handle (e : Event) (st : State) : State :=
  match e with
  | ClickMode m => setMode m st
  | ChangePrompt p => setPrompt p st
  | ChangeNegativePrompt p => setNegativePrompt p st
  | ClickRatio l => handleRatioSelect l st
  | ClickCustom => setSelectedRatio (lit "Custom") st
  | ChangeWidth v => onWidthChange v st
  | ChangeHeight v => onHeightChange v st
  | DropImage files url => handleFileDrop setImage setImagePreview files url st
  | SelectImage files url =>
      handleFileSelect setImage setImagePreview files url st
  | DropMask files url => handleFileDrop setMask setMaskPreview files url st
  | SelectMask files url => handleFileSelect setMask setMaskPreview files url st
  | ChangeStrength v => setStrength v st
  | ToggleAdvanced => setShowAdvanced (negb (showAdvanced st)) st
  | ChangeSampler x => setSamplerName x st
  | ChangeScheduler x => setScheduler x st
  | ChangeSteps v => setSteps v st
  | ChangeCfgScale v => setCfgScale v st
  | ChangeSeed v => setSeed v st
  | ChangeBatchSize v => setBatchSize v st
  | ChangeClipSkip v => setClipSkip v st
  end.

(** The form after a sequence of events, oldest first. *)
Definition after (es : list Event) (st : State) : State :=
  fold_left (fun s e => handle e s) es st.

End WithRatios.

(** [handleSubmit]: [None] is the early [return]; [Some v] is the call
    [onGenerate(v)].  [isGenerating] is the prop the page passes down. *)
Definition handleSubmit (isGenerating : bool) (st : State)
  : option Types.GenerationValues :=
  if negb (truthy (trim (prompt st))) || isGenerating then None
  else Some {|
    Types.mode := mode st;
    Types.prompt := trim (prompt st);
    Types.negative_prompt := negativePrompt st;
    Types.width := width st;
    Types.height := height st;
    Types.steps := steps st;
    Types.cfg_scale := cfgScale st;
    Types.seed := seed st;
    Types.batch_size := batchSize st;
    Types.sampler_name := samplerName st;
    Types.scheduler := scheduler st;
    Types.clip_skip := clipSkip st;
    Types.strength := strength st;
    Types.image := image st;
    Types.mask := mask st
  |}.

(** The [disabled] attribute of the submit button. *)
Definition submitDisabled (isGenerating : bool) (st : State) : bool :=
  negb (truthy (trim (prompt st))) || isGenerating.

(** Every entry of a ratio table names a valid width and a valid height. *)
Definition table_valid (table : list Types.AspectRatio) : Prop :=
  Forall (fun r => valid_number (Types.ratio_width r)
                   /\ valid_number (Types.ratio_height r)) table.

(** The form holds a valid width and a valid height. *)
Definition sizes_valid (st : State) : Prop :=
  valid_number (width st) /\ valid_number (height st).

(** Each upload cell and its preview cell are filled together. *)
Definition previews_paired (st : State) : Prop :=
  (image st = None <-> imagePreview st = None)
  /\ (mask st = None <-> maskPreview st = None).

End GeneratorForm.

(** ** app/page.tsx: the page state and [handleGenerate] *)

Module Page.

Import JS.

(** What [generate(values)] settles to: a result carrying [images], a thrown
    [Error] with its message, or a thrown value that is not an [Error]. *)
Inductive Outcome :=
| Fulfilled (result_images : list jsstring)
| RejectedError (message : jsstring)
| RejectedOther.

(** The cells of [Home] that [handleGenerate] and the lightbox read or write;
    [health], [samplers] and [schedulers] are written by the mount effect
    only and play no part here. *)
Record State := {
  images : list jsstring;
  lightboxIdx : option Z;
  isGenerating : bool;
  estimatedMs : number;
  error : option jsstring
}.

Definition initial : State := {|
  images := [];
  lightboxIdx := None;
  isGenerating := false;
  estimatedMs := 0%Q;
  error := None
|}.

(** [const est = 30000 * (pixels / (1024 * 1024)) * (values.steps / 8)]
    with [pixels = values.width * values.height], each product and quotient
    a binary64 operation, evaluated from left to right. *)
Definition estimate (values : Types.GenerationValues) : number :=
  let pixels := JS.mul (Types.width values) (Types.height values) in
  JS.mul (JS.mul 30000 (JS.div pixels (JS.mul 1024 1024)))
         (JS.div (Types.steps values) 8).

(** A request of the given width, height and step count, the other fields
    as the form starts them. *)
Definition request_of (w h s : number) : Types.GenerationValues :=
  Types.Build_GenerationValues Types.txt2img (lit "a cat") []
    w h s 1 (-1) 1 [] [] (-1) (3 # 4) None None.

(** [handleGenerate] up to its [await]: the three setters run, then
    [generate(values)] is called; the second component is the argument of
    that call. *)
Definition handleGenerate_begin (values : Types.GenerationValues) (st : State)
  : State * Types.GenerationValues :=
  ({| images := images st;
      lightboxIdx := lightboxIdx st;
      isGenerating := true;
      estimatedMs := estimate values;
      error := None |},
   values).

(** [handleGenerate] after the [await]: [try] / [catch] / [finally], applied
    to the state current at that time (the updater of [setImages] receives
    the latest list). *)
Definition handleGenerate_settle (o : Outcome) (st : State) : State :=
  {| images := match o with
               | Fulfilled result_images => result_images ++ images st
               | _ => images st
               end;
     lightboxIdx := lightboxIdx st;
     isGenerating := false;
     estimatedMs := estimatedMs st;
     error := match o with
              | Fulfilled _ => error st
              | RejectedError message => Some message
              | RejectedOther => Some (lit "Generation failed")
              end |}.

(** The whole of [handleGenerate] when nothing else touches the state while
    the call is pending. *)
Definition handleGenerate (values : Types.GenerationValues) (o : Outcome)
    (st : State) : State :=
  handleGenerate_settle o (fst (handleGenerate_begin values st)).

(** A submit of the form rendered by the page: [onGenerate] is
    [handleGenerate] and [isGenerating] is the page's flag.  The second
    component is the argument [generate] is called with, if it is called. *)
Definition submit (form : GeneratorForm.State) (st : State)
  : State * option Types.GenerationValues :=
  match GeneratorForm.handleSubmit (isGenerating st) form with
  | None => (st, None)
  | Some values =>
      let (st', sent) := handleGenerate_begin values st in (st', Some sent)
  end.

Definition setLightboxIdx (i : option Z) (st : State) : State :=
  {| images := images st; lightboxIdx := i; isGenerating := isGenerating st;
     estimatedMs := estimatedMs st; error := error st |}.

End Page.

(** ** components/Lightbox.tsx *)

Module Lightbox.

Import JS.

(** The callbacks a user action ends up invoking, in order. *)
Inductive Effect :=
| onClose
| onNavigate (idx : Z).

(** What the user can do to the rendered component. *)
Inductive Action :=
| KeyDown (key : jsstring)
| ClickPrev
| ClickNext
| ClickImage
| ClickCloseButton
| ClickBackdrop.

Section Props.

Variable images : list jsstring.
Variable currentIdx : Z.

Definition length_images : Z := Z.of_nat (List.length images).

Definition hasPrev : bool := 0 <? currentIdx.
Definition hasNext : bool := currentIdx <? length_images - 1.

Definition handleKeyDown (key : jsstring) : list Effect :=
  (if streq key (lit "Escape") then [onClose] else [])
  ++ (if streq key (lit "ArrowLeft") && hasPrev
      then [onNavigate (currentIdx - 1)] else [])
  ++ (if streq key (lit "ArrowRight") && hasNext
      then [onNavigate (currentIdx + 1)] else []).

(** [None]: the control is not rendered, so the action cannot happen.  The
    arrow buttons and the image stop propagation; a click on the close
    button also bubbles to the backdrop. *)
Definition dispatch (a : Action) : option (list Effect) :=
  match a with
  | KeyDown key => Some (handleKeyDown key)
  | ClickPrev => if hasPrev then Some [onNavigate (currentIdx - 1)] else None
  | ClickNext => if hasNext then Some [onNavigate (currentIdx + 1)] else None
  | ClickImage => Some []
  | ClickCloseButton => Some [onClose; onClose]
  | ClickBackdrop => Some [onClose]
  end.

End Props.

(** The page wires [onClose] to [setLightboxIdx(null)] and [onNavigate] to
    [setLightboxIdx]. *)
Definition run (e : Effect) (st : Page.State) : Page.State :=
  match e with
  | onClose => Page.setLightboxIdx None st
  | onNavigate idx => Page.setLightboxIdx (Some idx) st
  end.

End Lightbox.

(** ** components/Gallery.tsx *)

Module Gallery.

Import JS.

(** The component returns [null] for an empty list and otherwise one button
    per image, the button of index [idx] calling [onImageClick(idx)]. *)
Definition buttons (images : list jsstring) : option (list nat) :=
  match images with
  | [] => None
  | _ :: _ => Some (seq 0 (List.length images))
  end.

(** The argument of [onImageClick] when the [n]-th button is clicked; [None]
    when there is no such button. *)
Definition click (images : list jsstring) (n : nat) : option Z :=
  match buttons images with
  | None => None
  | Some idxs => option_map Z.of_nat (nth_error idxs n)
  end.

End Gallery.

(** ** app/page.tsx: the page with its children wired in *)

Module Home.

Import JS.

(** What can happen to the page: the form is submitted in some form state,
    the pending [generate] call settles, a thumbnail of the gallery is
    clicked, the user acts on the open lightbox. *)
Inductive Event :=
| Submit (form : GeneratorForm.State)
| Settle (o : Page.Outcome)
| ClickThumbnail (n : nat)
| InLightbox (a : Lightbox.Action).

(** One event: the new page state and the arguments of the [generate] calls
    it starts.  [None]: the event cannot happen in this state (no call is
    pending, no such thumbnail, the lightbox is not rendered or lacks the
    control). *)
Definition step (st : Page.State) (e : Event)
  : option (Page.State * list Types.GenerationValues) :=
  match e with
  | Submit form =>
      let (st', sent) := Page.submit form st in
      Some (st', match sent with Some values => [values] | None => [] end)
  | Settle o =>
      if Page.isGenerating st
      then Some (Page.handleGenerate_settle o st, []) else None
  | ClickThumbnail n =>
      match Gallery.click (Page.images st) n with
      | Some idx => Some (Page.setLightboxIdx (Some idx) st, [])
      | None => None
      end
  | InLightbox a =>
      match Page.lightboxIdx st with
      | None => None
      | Some currentIdx =>
          match Lightbox.dispatch (Page.images st) currentIdx a with
          | None => None
          | Some effects =>
              Some (fold_left (fun s e => Lightbox.run e s) effects st, [])
          end
      end
  end.

Fixpoint run (st : Page.State) (es : list Event)
  : option (Page.State * list Types.GenerationValues) :=
  match es with
  | [] => Some (st, [])
  | e :: es' =>
      match step st e with
      | None => None
      | Some (st1, calls1) =>
          match run st1 es' with
          | None => None
          | Some (st2, calls2) => Some (st2, calls1 ++ calls2)
          end
      end
  end.

(** The number of [Settle] events of a trace. *)
Fixpoint settled (es : list Event) : nat :=
  match es with
  | [] => 0
  | Settle _ :: es' => S (settled es')
  | _ :: es' => settled es'
  end.

(** The images delivered by the successful calls of a trace, newest batch
    first. *)
Fixpoint delivered (es : list Event) : list jsstring :=
  match es with
  | [] => []
  | Settle (Page.Fulfilled result_images) :: es' =>
      delivered es' ++ result_images
  | _ :: es' => delivered es'
  end.

(** The lightbox index, when there is one, is an index of the gallery. *)
Definition lightbox_in_range (st : Page.State) : Prop :=
  match Page.lightboxIdx st with
  | Some idx => 0 <= idx < Z.of_nat (List.length (Page.images st))
  | None => True
  end.

End Home.

(** ** generate.sh *)

Module GenerateSh.

Local Open Scope string_scope.

(** The shell variables the script sets. *)
Record Vars := {
  PROMPT : string;
  NEGATIVE : string;
  INIT_IMG : string;
  STRENGTH : string;
  OUTPUT : string;
  WIDTH : string;
  HEIGHT : string;
  STEPS : string;
  SEED : string
}.

(** The block under [# Defaults]. *)
Definition defaults : Vars := {|
  PROMPT := EmptyString;
  NEGATIVE := EmptyString;
  INIT_IMG := EmptyString;
  STRENGTH := "0.75";
  OUTPUT := "output.png";
  WIDTH := "1024";
  HEIGHT := "1024";
  STEPS := "8";
  SEED := "-1"
|}.

(** One arm of the [case "$1"]: the assignment it makes from ["$2"], or
    [None] for the catch-all arm. *)
Definition assign (opt val : string) (v : Vars) : option Vars :=
  if opt =? "-p" then
    Some {| PROMPT := val; NEGATIVE := NEGATIVE v; INIT_IMG := INIT_IMG v;
            STRENGTH := STRENGTH v; OUTPUT := OUTPUT v; WIDTH := WIDTH v;
            HEIGHT := HEIGHT v; STEPS := STEPS v; SEED := SEED v |}
  else if opt =? "-n" then
    Some {| PROMPT := PROMPT v; NEGATIVE := val; INIT_IMG := INIT_IMG v;
            STRENGTH := STRENGTH v; OUTPUT := OUTPUT v; WIDTH := WIDTH v;
            HEIGHT := HEIGHT v; STEPS := STEPS v; SEED := SEED v |}
  else if opt =? "-i" then
    Some {| PROMPT := PROMPT v; NEGATIVE := NEGATIVE v; INIT_IMG := val;
            STRENGTH := STRENGTH v; OUTPUT := OUTPUT v; WIDTH := WIDTH v;
            HEIGHT := HEIGHT v; STEPS := STEPS v; SEED := SEED v |}
  else if opt =? "-s" then
    Some {| PROMPT := PROMPT v; NEGATIVE := NEGATIVE v; INIT_IMG := INIT_IMG v;
            STRENGTH := val; OUTPUT := OUTPUT v; WIDTH := WIDTH v;
            HEIGHT := HEIGHT v; STEPS := STEPS v; SEED := SEED v |}
  else if opt =? "-o" then
    Some {| PROMPT := PROMPT v; NEGATIVE := NEGATIVE v; INIT_IMG := INIT_IMG v;
            STRENGTH := STRENGTH v; OUTPUT := val; WIDTH := WIDTH v;
            HEIGHT := HEIGHT v; STEPS := STEPS v; SEED := SEED v |}
  else if opt =? "-W" then
    Some {| PROMPT := PROMPT v; NEGATIVE := NEGATIVE v; INIT_IMG := INIT_IMG v;
            STRENGTH := STRENGTH v; OUTPUT := OUTPUT v; WIDTH := val;
            HEIGHT := HEIGHT v; STEPS := STEPS v; SEED := SEED v |}
  else if opt =? "-H" then
    Some {| PROMPT := PROMPT v; NEGATIVE := NEGATIVE v; INIT_IMG := INIT_IMG v;
            STRENGTH := STRENGTH v; OUTPUT := OUTPUT v; WIDTH := WIDTH v;
            HEIGHT := val; STEPS := STEPS v; SEED := SEED v |}
  else if opt =? "-S" then
    Some {| PROMPT := PROMPT v; NEGATIVE := NEGATIVE v; INIT_IMG := INIT_IMG v;
            STRENGTH := STRENGTH v; OUTPUT := OUTPUT v; WIDTH := WIDTH v;
            HEIGHT := HEIGHT v; STEPS := val; SEED := SEED v |}
  else if opt =? "--seed" then
    Some {| PROMPT := PROMPT v; NEGATIVE := NEGATIVE v; INIT_IMG := INIT_IMG v;
            STRENGTH := STRENGTH v; OUTPUT := OUTPUT v; WIDTH := WIDTH v;
            HEIGHT := HEIGHT v; STEPS := STEPS v; SEED := val |}
  else None.

Inductive Parsed :=
| Done (v : Vars)
| Unknown (opt : string)      (* the arm that prints and exits 1 *)
| ShiftFails.                 (* an option is the last word: [shift 2] fails,
                                 the words stay, the loop never ends *)

(** The [while [[ $# -gt 0 ]]] loop over the positional parameters. *)
Fixpoint parse (args : list string) (v : Vars) : Parsed :=
  match args with
  | [] => Done v
  | opt :: rest =>
      match assign opt (List.hd EmptyString rest) v with
      | None => Unknown opt
      | Some v' =>
          match rest with
          | [] => ShiftFails
          | _ :: rest' => parse rest' v'
          end
      end
  end.

(** How a run of the script ends: it exits by itself with a status and the
    lines it printed, it runs the command line it built, or it never leaves
    the parsing loop. *)
Inductive Outcome :=
| Exit (status : Z) (printed : list string)
| Run (cmd : list string)
| Loops.

Definition nonempty (s : string) : bool :=
  match s with EmptyString => false | String _ _ => true end.

Definition dquote : string := String (ascii_of_nat 34) EmptyString.

Local Infix "^" := String.append (at level 30, right associativity).

Section Script.

Variable SCRIPT_DIR : string.

(** The array [CMD], with the two conditional extensions. *)
Definition CMD (v : Vars) : list string :=
  [ SCRIPT_DIR ^ "/stable-diffusion.cpp/build/bin/sd-cli";
    "--diffusion-model"; SCRIPT_DIR ^ "/models/z_image_turbo-Q6_K.gguf";
    "--vae"; SCRIPT_DIR ^ "/models/vae/split_files/vae/ae.safetensors";
    "--llm";
    SCRIPT_DIR ^ "/models/text_encoder/Qwen3-4B-Instruct-2507-Q4_K_M.gguf";
    "-p"; PROMPT v;
    "--cfg-scale"; "1.0";
    "--steps"; STEPS v;
    "--seed"; SEED v;
    "--diffusion-fa";
    "--offload-to-cpu";
    "-H"; HEIGHT v; "-W"; WIDTH v;
    "-o"; OUTPUT v ]%list
  ++ (if nonempty (NEGATIVE v) then ["-n"; NEGATIVE v] else [])%list
  ++ (if nonempty (INIT_IMG v)
      then ["--init-img"; INIT_IMG v; "--strength"; STRENGTH v] else [])%list.

Definition main (args : list string) : Outcome :=
  match parse args defaults with
  | Unknown opt => Exit 1 ["Unknown option: " ^ opt]%list
  | ShiftFails => Loops
  | Done v =>
      if nonempty (PROMPT v) then Run (CMD v)
      else Exit 1
        [ "Error: prompt is required. Use -p " ^ dquote ^ "your prompt" ^ dquote;
          "Run './generate.sh' and see the header for full usage." ]%list
  end.

End Script.

(** The nine options of the [case]. *)
Definition known (opt : string) : bool :=
  (opt =? "-p") || (opt =? "-n") || (opt =? "-i") || (opt =? "-s")
  || (opt =? "-o") || (opt =? "-W") || (opt =? "-H") || (opt =? "-S")
  || (opt =? "--seed").

(** [v] with another strength. *)
Definition with_STRENGTH (x : string) (v : Vars) : Vars :=
  {| PROMPT := PROMPT v; NEGATIVE := NEGATIVE v; INIT_IMG := INIT_IMG v;
     STRENGTH := x; OUTPUT := OUTPUT v; WIDTH := WIDTH v;
     HEIGHT := HEIGHT v; STEPS := STEPS v; SEED := SEED v |}.

(** Two settings of the variables that differ at most in the strength. *)
Definition same_but_STRENGTH (v w : Vars) : Prop :=
  with_STRENGTH EmptyString v = with_STRENGTH EmptyString w.

(** A string made of blanks only (space, tab, newline, carriage return). *)
Fixpoint blank (s : string) : bool :=
  match s with
  | EmptyString => true
  | String c s' =>
      (Ascii.eqb c " " || Ascii.eqb c (ascii_of_nat 9)
       || Ascii.eqb c (ascii_of_nat 10) || Ascii.eqb c (ascii_of_nat 13))
      && blank s'
  end.

End GenerateSh.

(** ** The engine's health, from the design document *)

Module Health.

(** Modelled from the spec: the state of the engine process and the health
    status derived from it.  The process supervisor and the health monitor
    (server/sd_backend.py) are not among the sources; the definitions follow
    sections 3 and 4.2 of the design document. *)
Inductive EngineState := Stopped | Starting | Ready | Degraded | Crashed.

(** Modelled from the spec: the status of HealthStatus. *)
Inductive Status := ok | degraded | down.

(** Modelled from the spec: EngineProcess of section 3 (the process handle
    itself plays no part in the status). *)
Record EngineProcess := {
  state : EngineState;
  restart_count : nat;
  last_health_check : Z
}.

(** Modelled from the spec: HealthStatus of section 3. *)
Record HealthStatus := {
  status : Status;
  last_checked : Z
}.

(** Modelled from the spec: "Starting/Crashed/Stopped -> down; Degraded ->
    degraded; Ready -> ok". *)
Definition status_of (s : EngineState) : Status :=
  match s with
  | Starting | Crashed | Stopped => down
  | Degraded => degraded
  | Ready => ok
  end.

(** Modelled from the spec: the health status recomputed on a probe tick at
    time [now]. *)
Definition compute (now : Z) (p : EngineProcess) : HealthStatus :=
  {| status := status_of (state p); last_checked := now |}.

(** Modelled from the spec: the five states of section 3. *)
Definition all_states : list EngineState :=
  [Stopped; Starting; Ready; Degraded; Crashed].

End Health.

(** ** The gateway's admission queue, from the design document *)

Module Gateway.

(** Modelled from the spec: the serialization part of the proxy gateway
    (server/app.py is not among the sources), after sections 4.4 and 5 of
    the design document: at most one forward call to the engine is in
    flight, further callers wait in a queue of bounded depth in arrival
    order, and a caller that finds the queue full is refused with a
    backpressure error.  Concurrent callers are modelled by the interleaving
    of their arrivals with the completions of forward calls. *)
Definition Caller := nat.

(** Modelled from the spec: the engine slot and the queue of waiting
    callers. *)
Record State := {
  in_flight : option Caller;     (* the caller whose request is at the engine *)
  waiting : list Caller          (* oldest first *)
}.

(** Modelled from the spec: the gateway at service start. *)
Definition idle : State := {| in_flight := None; waiting := [] |}.

(** Modelled from the spec: what happens to the gateway. *)
Inductive Event :=
| Arrive (c : Caller)            (* a client call reaches the gateway *)
| Complete.                      (* the forward call in flight returns *)

(** Modelled from the spec: what the gateway does in answer. *)
Inductive Output :=
| Forward (c : Caller)           (* the gateway calls the engine for [c] *)
| Reply (c : Caller)             (* [c] gets its result (or engine error) *)
| Backpressure (c : Caller).     (* [c] is refused: the queue is full *)

Section Bounded.

(** Modelled from the spec: the configured queue depth. *)
Variable depth : nat.

(** Modelled from the spec: one event handled by the gateway. *)
Definition step (g : State) (e : Event) : State * list Output :=
  match e with
  | Arrive c =>
      match in_flight g, waiting g with
      | None, [] => ({| in_flight := Some c; waiting := [] |}, [Forward c])
      | _, _ =>
          if (List.length (waiting g) <? depth)%nat
          then ({| in_flight := in_flight g; waiting := waiting g ++ [c] |}, [])
          else (g, [Backpressure c])
      end
  | Complete =>
      match in_flight g with
      | None => (g, [])
      | Some c =>
          match waiting g with
          | [] => ({| in_flight := None; waiting := [] |}, [Reply c])
          | d :: w =>
              ({| in_flight := Some d; waiting := w |}, [Reply c; Forward d])
          end
      end
  end.


(** Modelled from the spec: a run of the gateway, giving the state reached
    and everything output, in order. *)
Fixpoint run (g : State) (es : list Event) : State * list Output :=
  match es with
  | [] => (g, [])
  | e :: es' =>
      let (g1, o1) := step g e in
      let (g2, o2) := run g1 es' in
      (g2, o1 ++ o2)
  end.

End Bounded.







End Gateway.

(** ** The request translator, from the design document *)

Module Translator.

(** Modelled from the spec: the generation modes of section 3.  The request
    translator and the gateway that calls it (server/models.py and
    server/app.py) are not among the sources; the definitions of this module
    follow sections 3, 4.3, 4.4 and 7 of the design document. *)
Inductive Mode := text_to_image | image_to_image | inpaint.

(** Modelled from the spec: GenerationRequest of section 3; an optional
    field is [None] when the client left it unset, image and mask are
    bytes. *)
Record GenerationRequest := {
  mode : Mode;
  prompt : string;
  negative_prompt : option string;
  width : Z;
  height : Z;
  steps : option Z;
  cfg_scale : option Q;
  seed : Z;
  batch_size : Z;
  sampler_name : option string;
  scheduler : option string;
  clip_skip : Z;
  strength : Q;
  image : option (list N);
  mask : option (list N)
}.

(** Modelled from the spec: the configured defaults of section 6, resolved
    once at startup. *)
Record Config := {
  default_steps : Z;
  default_cfg_scale : Q;
  default_sampler : string
}.

(** Modelled from the spec: what the translator hands to the engine
    (section 4.3): the fields with defaults substituted, the source image
    and the denoising strength for image_to_image and inpaint, the mask for
    inpaint. *)
Record EngineWireRequest := {
  wire_prompt : string;
  wire_negative_prompt : string;
  wire_width : Z;
  wire_height : Z;
  wire_steps : Z;
  wire_cfg_scale : Q;
  wire_seed : Z;
  wire_batch_size : Z;
  wire_sampler_name : string;
  wire_scheduler : string;
  wire_clip_skip : Z;
  init_image : option (list N);
  denoising_strength : option Q;
  wire_mask : option (list N)
}.

(** Modelled from the spec: the constraints of section 4.3 whose violation
    is a ValidationError. *)
Inductive Violation :=
| BadWidth            (* width not a multiple of 64 or outside [64,2048] *)
| BadHeight           (* height not a multiple of 64 or outside [64,2048] *)
| MissingImage        (* the mode requires a source image that is absent *)
| MissingMask         (* the mode requires a mask that is absent *)
| BadStrength         (* strength outside [0,1] when required *)
| EmptyPrompt.        (* prompt empty *)

(** Modelled from the spec: the errors of section 7 that are decided before
    any engine contact. *)
Inductive Error :=
| ValidationError (violated : list Violation)
| EngineUnavailable.

(** Modelled from the spec: "multiples of 64, range [64,2048]". *)
Definition dimension_ok (d : Z) : bool :=
  (d mod 64 =? 0) && (64 <=? d) && (d <=? 2048).

(** Modelled from the spec: "source image bytes (required iff mode <>
    text_to_image); mask bytes (required iff mode = inpaint)"; the strength
    is required with the source image. *)
Definition needs_image (m : Mode) : bool :=
  match m with text_to_image => false | image_to_image | inpaint => true end.

Definition needs_mask (m : Mode) : bool :=
  match m with inpaint => true | text_to_image | image_to_image => false end.

(** Modelled from the spec: the constraints a request violates, section
    4.3: "width/height not a multiple of 64 or outside [64,2048]; mode
    requires an image/mask that is absent; strength outside [0,1] when
    required; prompt empty". *)
Definition violations (req : GenerationRequest) : list Violation :=
  (if dimension_ok (width req) then [] else [BadWidth])
  ++ (if dimension_ok (height req) then [] else [BadHeight])
  ++ (match image req with
      | None => if needs_image (mode req) then [MissingImage] else []
      | Some _ => []
      end)
  ++ (match mask req with
      | None => if needs_mask (mode req) then [MissingMask] else []
      | Some _ => []
      end)
  ++ (if needs_image (mode req)
         && negb (Qle_bool 0 (strength req) && Qle_bool (strength req) 1)
      then [BadStrength] else [])
  ++ (match prompt req with EmptyString => [EmptyPrompt] | String _ _ => [] end).

Section Configured.

(** Modelled from the spec: the immutable configuration object. *)
Variable cfg : Config.

(** Modelled from the spec: the wire request of a request that violates
    nothing: defaults substituted for unset fields, the empty string for an
    unset scheduler (engine default), size and the other fields as
    given. *)
Definition wire (req : GenerationRequest) : EngineWireRequest := {|
  wire_prompt := prompt req;
  wire_negative_prompt :=
    match negative_prompt req with Some n => n | None => EmptyString end;
  wire_width := width req;
  wire_height := height req;
  wire_steps :=
    match steps req with Some n => n | None => default_steps cfg end;
  wire_cfg_scale :=
    match cfg_scale req with Some c => c | None => default_cfg_scale cfg end;
  wire_seed := seed req;
  wire_batch_size := batch_size req;
  wire_sampler_name :=
    match sampler_name req with Some x => x | None => default_sampler cfg end;
  wire_scheduler :=
    match scheduler req with Some x => x | None => EmptyString end;
  wire_clip_skip := clip_skip req;
  init_image := if needs_image (mode req) then image req else None;
  denoising_strength :=
    if needs_image (mode req) then Some (strength req) else None;
  wire_mask := if needs_mask (mode req) then mask req else None
|}.

(** Modelled from the spec: [translate], which fails with ValidationError
    when a constraint is violated. *)
Definition translate (req : GenerationRequest) : Error + EngineWireRequest :=
  match violations req with
  | [] => inr (wire req)
  | v :: vs => inl (ValidationError (v :: vs))
  end.

(** Modelled from the spec: the gateway's [handle] up to the forward call
    (section 4.4): with health down it fails with EngineUnavailable without
    translating; otherwise it translates and, unless that fails, forwards
    the wire request to the engine.  The second component lists what is
    sent to the engine. *)
Definition handle {Reply : Type} (health : Health.Status)
    (engine : EngineWireRequest -> Reply) (req : GenerationRequest)
  : (Error + Reply) * list EngineWireRequest :=
  match health with
  | Health.down => (inl EngineUnavailable, [])
  | Health.ok | Health.degraded =>
      match translate req with
      | inl e => (inl e, [])
      | inr w => (inr (engine w), [w])
      end
  end.

End Configured.

End Translator.

(** ** Rounding to binary64 *)

Section Binary64.

Import JS.

Lemma pow2_pos (e : Z) : (0 < pow2 e)%Q.
Proof. apply Qpower_0_lt. reflexivity. Qed.

Lemma pow2_plus (a b : Z) : (pow2 (a + b) == pow2 a * pow2 b)%Q.
Proof. apply Qpower_plus. discriminate. Qed.

Lemma pow2_Z (e : Z) : 0 <= e -> (pow2 e == inject_Z (2 ^ e))%Q.
Proof. intros H. unfold pow2. now rewrite Zpower_Qpower. Qed.

Lemma pow2_lt_inv (a b : Z) : (pow2 a < pow2 b)%Q -> a < b.
Proof. intros H. apply (Qpower_lt_compat_l_inv 2); [exact H | reflexivity]. Qed.

Lemma Qdiv_le_Z (a b c d : Z) :
  0 < b -> 0 < d -> a * d <= c * b ->
  (inject_Z a / inject_Z b <= inject_Z c / inject_Z d)%Q.
Proof.
  intros Hb Hd H. destruct b as [|b|b]; try lia. destruct d as [|d|d]; try lia.
  unfold Qle, Qdiv, Qmult, Qinv, inject_Z. simpl. lia.
Qed.

Lemma Q_as_div (x : Q) : (x == inject_Z (Qnum x) / inject_Z (Z.pos (Qden x)))%Q.
Proof.
  destruct x as [n d]. unfold Qeq, Qdiv, Qmult, Qinv, inject_Z. simpl. lia.
Qed.

Lemma ilog2_le (x : Q) : (0 < x)%Q -> (pow2 (ilog2 x) <= x)%Q.
Proof.
  intros Hx. unfold ilog2.
  destruct (Qle_bool (pow2 (Z.log2 (Qnum x) - Z.log2 (Z.pos (Qden x)))) x)
    eqn:E.
  - now apply Qle_bool_iff.
  - clear E.
    assert (Hn : 0 < Qnum x).
    { unfold Qlt in Hx. simpl in Hx. lia. }
    assert (Hd : 0 < Z.pos (Qden x)) by lia.
    destruct (Z.log2_spec _ Hn) as [Ln _].
    destruct (Z.log2_spec _ Hd) as [_ Ld].
    pose proof (Z.log2_nonneg (Qnum x)) as Nn.
    pose proof (Z.log2_nonneg (Z.pos (Qden x))) as Nd.
    replace (Z.log2 (Qnum x) - Z.log2 (Z.pos (Qden x)) - 1)
      with (Z.log2 (Qnum x) + - Z.succ (Z.log2 (Z.pos (Qden x)))) by lia.
    rewrite pow2_plus. unfold pow2 at 2. rewrite Qpower_opp.
    fold (pow2 (Z.succ (Z.log2 (Z.pos (Qden x))))).
    rewrite !pow2_Z by lia.
    rewrite (Q_as_div x) at 3.
    apply Qdiv_le_Z; [lia | lia |].
    assert (P : 0 < 2 ^ Z.log2 (Qnum x)) by (apply Z.pow_pos_nonneg; lia).
    nia.
Qed.

#[global] Instance binary64_Proper : Proper (Qeq ==> Qeq) binary64.
Proof.
  intros a b H. unfold binary64. now rewrite (Qred_complete a b H).
Qed.

Lemma round_half_even_Z (x : Q) (n : Z) :
  (x == inject_Z n)%Q -> round_half_even x = n.
Proof.
  intros H. unfold round_half_even.
  assert (F : Qfloor x = n) by (rewrite H; apply Qfloor_Z).
  rewrite F.
  assert (C : (x - inject_Z n ?= 1 # 2)%Q = Lt).
  { rewrite H. setoid_replace (inject_Z n - inject_Z n)%Q with 0%Q by ring.
    reflexivity. }
  now rewrite C.
Qed.

Lemma binary64_exact (x : Q) (m e : Z) :
  -1074 <= e -> Z.abs m < 2 ^ 53 ->
  (x == inject_Z m * pow2 e)%Q -> (binary64 x == x)%Q.
Proof.
  intros He Hm Hx. unfold binary64.
  pose proof (Qred_correct x) as Hr. set (r := Qred x) in *.
  destruct (Qeq_bool r 0) eqn:Z0.
  - apply Qeq_bool_iff in Z0. now rewrite <- Hr, Z0.
  - assert (Hnz : ~ (r == 0)%Q).
    { intros C. apply Qeq_bool_iff in C. congruence. }
    set (p := Z.max (ilog2 (Qabs r) - 52) (-1074)).
    assert (Hp : p <= e).
    { assert (Hpos : (0 < Qabs r)%Q).
      { destruct (Qlt_le_dec 0 (Qabs r)) as [H | H]; [exact H|].
        exfalso. apply Hnz. apply Qabs_Qle_condition in H as [H1 H2].
        apply Qle_antisym; [exact H2 | exact H1]. }
      pose proof (ilog2_le (Qabs r) Hpos) as L.
      assert (U : (Qabs r < pow2 (53 + e))%Q).
      { rewrite Hr, Hx, Qabs_Qmult, pow2_plus.
        rewrite (Qabs_pos (pow2 e)) by (apply Qlt_le_weak, pow2_pos).
        apply Qmult_lt_compat_r; [apply pow2_pos|].
        rewrite pow2_Z by lia.
        unfold Qabs, inject_Z, Qlt. simpl. lia. }
      assert (K : ilog2 (Qabs r) < 53 + e).
      { apply pow2_lt_inv. eapply Qle_lt_trans; eassumption. }
      unfold p. lia. }
    assert (Ei : (r / pow2 p == inject_Z (m * 2 ^ (e - p)))%Q).
    { rewrite Hr, Hx, inject_Z_mult, <- pow2_Z by lia.
      replace e with ((e - p) + p) at 1 by lia. rewrite pow2_plus.
      field. apply Qnot_eq_sym, Qlt_not_eq, pow2_pos. }
    rewrite (round_half_even_Z _ _ Ei).
    rewrite inject_Z_mult, <- pow2_Z by lia.
    rewrite <- Qmult_assoc, <- pow2_plus.
    replace (e - p + p) with e by lia. now symmetry.
Qed.

Lemma mul_exact (x y : Q) (m e : Z) :
  -1074 <= e -> Z.abs m < 2 ^ 53 ->
  (x * y == inject_Z m * pow2 e)%Q -> (mul x y == inject_Z m * pow2 e)%Q.
Proof.
  intros He Hm H. unfold mul. rewrite (binary64_exact _ m e He Hm H). exact H.
Qed.

Lemma div_exact (x y : Q) (m e : Z) :
  -1074 <= e -> Z.abs m < 2 ^ 53 ->
  (x / y == inject_Z m * pow2 e)%Q -> (div x y == inject_Z m * pow2 e)%Q.
Proof.
  intros He Hm H. unfold div. rewrite (binary64_exact _ m e He Hm H). exact H.
Qed.

#[global] Instance mul_Proper : Proper (Qeq ==> Qeq ==> Qeq) mul.
Proof. intros a b H c d K. unfold mul. now rewrite H, K. Qed.

#[global] Instance div_Proper : Proper (Qeq ==> Qeq ==> Qeq) div.
Proof. intros a b H c d K. unfold div. now rewrite H, K. Qed.

End Binary64.

(** ** Properties of rounding *)

Section Rounding.

Import JS GeneratorForm.

Lemma Math_round_div64 (n : Z) :
  Math_round (inject_Z n / 64)%Q = (n + 32) / 64.
Proof.
  unfold Math_round.
  assert (E : (inject_Z n / 64 + (1 # 2) == (n + 32) # 64)%Q).
  { unfold Qeq, Qdiv, Qplus, Qmult, Qinv, inject_Z; simpl. lia. }
  rewrite E. reflexivity.
Qed.

Lemma roundTo64_Z (n : Z) : roundTo64 (inject_Z n) = (n + 32) / 64 * 64.
Proof. unfold roundTo64. now rewrite Math_round_div64. Qed.

Lemma roundTo64_multiple (n : number) : (64 | roundTo64 n).
Proof. exists (Math_round (n / 64)%Q). reflexivity. Qed.

Lemma valid_dimb_spec (d : Z) : valid_dimb d = true <-> valid_dim d.
Proof.
  unfold valid_dimb, valid_dim.
  rewrite !andb_true_iff, Z.eqb_eq, !Z.leb_le, Z.mod_divide by lia.
  tauto.
Qed.

Lemma clamp64_valid (n : number) : valid_dim (clamp64 n).
Proof.
  unfold valid_dim, clamp64.
  destruct (roundTo64_multiple n) as [k Hk]. rewrite Hk.
  split; [| lia].
  destruct (Z_lt_le_dec (k * 64) 64); [exists 1; lia|].
  destruct (Z_lt_le_dec 2048 (k * 64)); [exists 32; lia|].
  exists k; lia.
Qed.

Lemma clamp64_fixes_valid (d : Z) : valid_dim d -> clamp64 (inject_Z d) = d.
Proof.
  intros [[k ->] Hr]. unfold clamp64. rewrite roundTo64_Z.
  replace (k * 64 + 32) with (32 + k * 64) by lia.
  rewrite Z.div_add by lia. change (32 / 64) with 0. lia.
Qed.

End Rounding.

(** ** Properties of [trim] *)

Section Trim.

Import JS.

Lemma trimStart_nil (s : jsstring) : trimStart s = [] <-> all_blank s = true.
Proof.
  induction s as [|c s IH]; simpl; [tauto|].
  destruct (is_trimmed_unit c); simpl; [exact IH|].
  split; discriminate.
Qed.

Lemma trimStart_head (s : jsstring) c r :
  trimStart s = c :: r -> is_trimmed_unit c = false.
Proof.
  induction s as [|d s IH]; simpl; [discriminate|].
  destruct (is_trimmed_unit d) eqn:E; [exact IH|].
  intros H; injection H as -> _. exact E.
Qed.

Lemma all_blank_rev (s : jsstring) : all_blank (rev s) = all_blank s.
Proof.
  unfold all_blank. induction s as [|c s IH]; simpl; [reflexivity|].
  rewrite forallb_app, IH. simpl. rewrite andb_true_r. apply andb_comm.
Qed.

Lemma trim_empty (s : jsstring) :
  truthy (trim s) = false <-> all_blank s = true.
Proof.
  unfold trim, trimEnd. split.
  - intros H.
    assert (E : trimStart (rev (trimStart s)) = []).
    { destruct (trimStart (rev (trimStart s))) as [|x l] eqn:E; [reflexivity|].
      simpl in H. destruct (rev l ++ [x])%list eqn:E'; [|discriminate H].
      now destruct (rev l). }
    apply trimStart_nil in E. rewrite all_blank_rev in E.
    destruct (trimStart s) as [|c r] eqn:Es.
    + now apply trimStart_nil.
    + apply trimStart_head in Es. simpl in E. now rewrite Es in E.
  - intros H. apply trimStart_nil in H. rewrite H. reflexivity.
Qed.

Lemma trim_nonempty (s : jsstring) :
  truthy (trim s) = true <-> all_blank s = false.
Proof.
  pose proof (trim_empty s) as H.
  destruct (truthy (trim s)), (all_blank s); intuition congruence.
Qed.

End Trim.

(** ** [clamp64] *)

Section Clamp.

Import JS GeneratorForm.

Example clamp64_100 : clamp64 100%Q = 128.
Proof. reflexivity. Qed.

Example clamp64_96 : clamp64 96%Q = 128.
Proof. reflexivity. Qed.

Example clamp64_95 : clamp64 95%Q = 64.
Proof. reflexivity. Qed.

Example clamp64_negative : clamp64 (-4096)%Q = 64.
Proof. reflexivity. Qed.

Example clamp64_huge : clamp64 100000%Q = 2048.
Proof. reflexivity. Qed.

Example clamp64_fraction : clamp64 (2001 # 2)%Q = 1024.
Proof. reflexivity. Qed.

(** C8. For every integer [n], [clamp64 n] is a multiple of 64 within
    [64, 2048]; [clamp64] is idempotent; and it leaves every multiple of 64
    within [64, 2048] as it is. *)
Theorem clamp64_multiple_bounded_idempotent (n : Z) :
  (64 | clamp64 (inject_Z n))
  /\ 64 <= clamp64 (inject_Z n) <= 2048
  /\ clamp64 (inject_Z (clamp64 (inject_Z n))) = clamp64 (inject_Z n)
  /\ ((64 | n) -> 64 <= n <= 2048 -> clamp64 (inject_Z n) = n).
Proof.
  pose proof (clamp64_valid (inject_Z n)) as [Hd Hr].
  repeat split; try assumption; try apply Hr.
  - apply clamp64_fixes_valid. now split.
  - intros Hn Hb. apply clamp64_fixes_valid. now split.
Qed.

Lemma clamp64_multiple_bounded_idempotent_witness :
  (64 | 1536) /\ 64 <= 1536 <= 2048 /\ clamp64 (inject_Z 1536) = 1536.
Proof.
  assert (D : (64 | 1536)) by (exists 24; reflexivity).
  assert (B : 64 <= 1536 <= 2048) by lia.
  split; [exact D|]. split; [exact B|].
  exact (proj2 (proj2 (proj2 (clamp64_multiple_bounded_idempotent 1536))) D B).
Defined.

End Clamp.

(** ** [handleGenerate]: the estimate and the gallery *)

Section Generate.

Import JS Page.

Example estimate_default :
  (estimate (Types.Build_GenerationValues Types.txt2img (lit "a cat") []
               1024 1024 8 1 (-1) 1 [] [] (-1) (3 # 4) None None)
   == 30000)%Q.
Proof. vm_compute. reflexivity. Qed.

Example estimate_small :
  (estimate (Types.Build_GenerationValues Types.txt2img (lit "a cat") []
               512 512 4 1 (-1) 1 [] [] (-1) (3 # 4) None None)
   == 3750)%Q.
Proof. vm_compute. reflexivity. Qed.

Example estimate_rounds_large_sides :
  (estimate (request_of 134217729 134217729 8) == 515396083200000)%Q
  /\ ~ (estimate (request_of 134217729 134217729 8)
        == 30000 * ((134217729 * 134217729) / (1024 * 1024)) * (8 / 8))%Q.
Proof.
  split; [vm_compute; reflexivity | vm_compute; intros H; discriminate H].
Qed.

(** On integer sizes and step counts in the range where no product or
    quotient of the estimate needs rounding, the estimate is the exact
    value. *)
Lemma estimate_exact (values : Types.GenerationValues) (w h s : Z) :
  (Types.width values == inject_Z w)%Q ->
  (Types.height values == inject_Z h)%Q ->
  (Types.steps values == inject_Z s)%Q ->
  0 <= w -> 0 <= h -> 0 <= s -> s < 2 ^ 53 ->
  1875 * (w * h) < 2 ^ 53 -> 1875 * (w * h * s) < 2 ^ 53 ->
  (estimate values == inject_Z (w * h * s) * (1875 # 524288))%Q.
Proof.
  intros HW HH HS Hw Hh Hs Bs Bp Bt.
  assert (Pwh : 0 <= w * h) by nia.
  assert (Pwhs : 0 <= w * h * s) by nia.
  unfold estimate. rewrite HW, HH, HS.
  assert (E1 : (mul (inject_Z w) (inject_Z h) == inject_Z (w * h) * pow2 0)%Q).
  { apply mul_exact; [lia | lia |]. change (pow2 0) with 1%Q.
    rewrite inject_Z_mult. ring. }
  assert (E2 : (mul 1024 1024 == 1048576)%Q) by (vm_compute; reflexivity).
  rewrite E1, E2.
  assert (E3 : (div (inject_Z (w * h) * pow2 0) 1048576
                == inject_Z (w * h) * pow2 (-20))%Q).
  { apply div_exact; [lia | lia |].
    change (pow2 0) with 1%Q. change (pow2 (-20)) with (1 # 1048576)%Q. field. }
  rewrite E3.
  assert (E4 : (mul 30000 (inject_Z (w * h) * pow2 (-20))
                == inject_Z (1875 * (w * h)) * pow2 (-16))%Q).
  { apply mul_exact; [lia | lia |].
    change (pow2 (-20)) with (1 # 1048576)%Q.
    change (pow2 (-16)) with (1 # 65536)%Q.
    rewrite !inject_Z_mult. change (inject_Z 1875) with 1875%Q. field. }
  rewrite E4.
  assert (E5 : (div (inject_Z s) 8 == inject_Z s * pow2 (-3))%Q).
  { apply div_exact; [lia | lia |].
    change (pow2 (-3)) with (1 # 8)%Q. field. }
  rewrite E5.
  assert (E6 : (mul (inject_Z (1875 * (w * h)) * pow2 (-16))
                  (inject_Z s * pow2 (-3))
                == inject_Z (1875 * (w * h * s)) * pow2 (-19))%Q).
  { apply mul_exact; [lia | lia |].
    change (pow2 (-16)) with (1 # 65536)%Q.
    change (pow2 (-3)) with (1 # 8)%Q.
    change (pow2 (-19)) with (1 # 524288)%Q.
    rewrite !inject_Z_mult. change (inject_Z 1875) with 1875%Q. field. }
  rewrite E6. change (pow2 (-19)) with (1 # 524288)%Q.
  rewrite !inject_Z_mult. change (inject_Z 1875) with 1875%Q. field.
Qed.

(** C1. [handleGenerate] stores, before it forwards the request unchanged,
    the number JavaScript computes for
    30000 * ((w * h) / (1024 * 1024)) * (s / 8), and keeps it when the call
    settles.  For a request of integer width [w], height [h] and step count
    [s], all at least 1 and with 1875 * w * h * s below 2^53 (every size up
    to 2048 by 2048 at up to 150 steps, all the form can send, and far
    beyond), no operation rounds and the stored number is exactly that
    value: the baseline of 30000 ms scaled by the pixel count over
    1024 * 1024 and by the step count over 8. *)
Theorem estimate_is_proportional (values : Types.GenerationValues)
    (st : State) (o : Outcome) :
  let st' := fst (handleGenerate_begin values st) in
  snd (handleGenerate_begin values st) = values
  /\ isGenerating st' = true
  /\ estimatedMs st'
     = JS.mul (JS.mul 30000
                 (JS.div (JS.mul (Types.width values) (Types.height values))
                    (JS.mul 1024 1024)))
         (JS.div (Types.steps values) 8)
  /\ estimatedMs (handleGenerate values o st) = estimatedMs st'
  /\ (forall w h s : Z,
        (Types.width values == inject_Z w)%Q ->
        (Types.height values == inject_Z h)%Q ->
        (Types.steps values == inject_Z s)%Q ->
        1 <= w -> 1 <= h -> 1 <= s -> 1875 * (w * h * s) < 2 ^ 53 ->
        let baseline := 30000%Q in
        let reference_pixels := (1024 * 1024)%Q in
        let reference_steps := 8%Q in
        (estimatedMs st'
         == 30000 * ((inject_Z w * inject_Z h) / (1024 * 1024))
            * (inject_Z s / 8))%Q
        /\ (estimatedMs st'
            == baseline * ((inject_Z w * inject_Z h) / reference_pixels)
               * (inject_Z s / reference_steps))%Q).
Proof.
  cbv zeta. unfold handleGenerate, handleGenerate_begin.
  cbn [fst snd handleGenerate_settle estimatedMs isGenerating].
  split; [reflexivity|]. split; [reflexivity|]. split; [reflexivity|].
  split; [reflexivity|].
  intros w h s HW HH HS Hw Hh Hs Hb.
  assert (P1 : 1 <= w * h) by nia.
  assert (P2 : w * h <= w * h * s) by nia.
  assert (P3 : s <= w * h * s) by nia.
  assert (E : (estimate values == inject_Z (w * h * s) * (1875 # 524288))%Q).
  { apply estimate_exact; try assumption; lia. }
  rewrite E, !inject_Z_mult. split; field.
Qed.

Lemma estimate_is_proportional_witness :
  let st' := fst (handleGenerate_begin (request_of 1024 1024 8) initial) in
  let baseline := 30000%Q in
  let reference_pixels := (1024 * 1024)%Q in
  let reference_steps := 8%Q in
  (estimatedMs st'
   == 30000 * ((inject_Z 1024 * inject_Z 1024) / (1024 * 1024))
      * (inject_Z 8 / 8))%Q
  /\ (estimatedMs st'
      == baseline * ((inject_Z 1024 * inject_Z 1024) / reference_pixels)
         * (inject_Z 8 / reference_steps))%Q.
Proof.
  exact (proj2 (proj2 (proj2 (proj2
    (estimate_is_proportional (request_of 1024 1024 8) initial
       RejectedOther)))) 1024 1024 8
    ltac:(reflexivity) ltac:(reflexivity) ltac:(reflexivity)
    ltac:(lia) ltac:(lia) ltac:(lia) ltac:(vm_compute; reflexivity)).
Defined.

Example gallery_after_success :
  images (handleGenerate_settle (Fulfilled [lit "new1"; lit "new2"])
            (fst (handleGenerate_begin
                    (Types.Build_GenerationValues Types.txt2img (lit "a cat")
                       [] 1024 1024 8 1 (-1) 1 [] [] (-1) (3 # 4) None None)
                    {| images := [lit "old1"; lit "old2"];
                       lightboxIdx := None; isGenerating := false;
                       estimatedMs := 0; error := None |})))
  = [lit "new1"; lit "new2"; lit "old1"; lit "old2"].
Proof. reflexivity. Qed.

(** C9. When the call succeeds, the new gallery list is the result's images,
    in their order, followed by the previous list: each previous image is
    still there, unchanged, [length result_images] places further, so the
    previous relative order is kept and the newest batch comes first. *)
Theorem gallery_prepends_result (result_images : list jsstring) (st : State) :
  let st' := handleGenerate_settle (Fulfilled result_images) st in
  images st' = result_images ++ images st
  /\ (forall i img, nth_error result_images i = Some img ->
                    nth_error (images st') i = Some img)
  /\ (forall i img, nth_error (images st) i = Some img ->
                    nth_error (images st') (List.length result_images + i)
                    = Some img)
  /\ List.length (images st')
     = (List.length result_images + List.length (images st))%nat
  /\ (forall values,
        images (handleGenerate values (Fulfilled result_images) st)
        = result_images ++ images st).
Proof.
  cbv zeta. simpl. repeat split.
  - intros i img H. rewrite nth_error_app1; [exact H|].
    apply nth_error_Some. congruence.
  - intros i img H. rewrite nth_error_app2 by lia.
    now replace (List.length result_images + i - List.length result_images)%nat
      with i by lia.
  - apply length_app.
Qed.

Lemma gallery_prepends_result_witness :
  nth_error
    (images (handleGenerate_settle (Fulfilled [lit "new"])
               {| images := [lit "old"]; lightboxIdx := None;
                  isGenerating := true; estimatedMs := 30000;
                  error := None |}))
    1 = Some (lit "old").
Proof.
  apply (proj1 (proj2 (proj2
    (gallery_prepends_result [lit "new"]
       {| images := [lit "old"]; lightboxIdx := None;
          isGenerating := true; estimatedMs := 30000;
          error := None |}))) 0%nat (lit "old")).
  reflexivity.
Defined.

(** A failed call leaves the gallery as it was. *)
Lemma gallery_kept_on_failure (o : Outcome) (st : State) :
  (forall imgs, o <> Fulfilled imgs) ->
  images (handleGenerate_settle o st) = images st.
Proof. destruct o; simpl; intros H; [now destruct (H result_images)| |]; reflexivity. Qed.

End Generate.

(** ** Lightbox navigation *)

Section LightboxNavigation.

Import JS Lightbox.

Example arrow_right_from_first :
  dispatch [lit "a"; lit "b"; lit "c"] 0 (KeyDown (lit "ArrowRight"))
  = Some [onNavigate 1].
Proof. reflexivity. Qed.

Example arrow_left_from_first :
  dispatch [lit "a"; lit "b"; lit "c"] 0 (KeyDown (lit "ArrowLeft")) = Some [].
Proof. reflexivity. Qed.

Example arrow_right_from_last :
  dispatch [lit "a"; lit "b"; lit "c"] 2 (KeyDown (lit "ArrowRight")) = Some [].
Proof. reflexivity. Qed.

Example next_button_absent_on_last :
  dispatch [lit "a"; lit "b"; lit "c"] 2 ClickNext = None.
Proof. reflexivity. Qed.

Lemma hasPrev_true currentIdx :
  hasPrev currentIdx = true <-> 0 < currentIdx.
Proof. unfold hasPrev. apply Z.ltb_lt. Qed.

Lemma hasNext_true images currentIdx :
  hasNext images currentIdx = true <-> currentIdx < length_images images - 1.
Proof. unfold hasNext. apply Z.ltb_lt. Qed.

(** Every index the component passes to [onNavigate] is the neighbour on a
    side that exists. *)
Lemma navigate_to_neighbour images currentIdx a effects idx :
  dispatch images currentIdx a = Some effects ->
  In (onNavigate idx) effects ->
  (idx = currentIdx - 1 /\ 0 < currentIdx)
  \/ (idx = currentIdx + 1 /\ currentIdx < length_images images - 1).
Proof.
  destruct a; simpl; unfold handleKeyDown.
  - intros [= <-] H. rewrite !in_app_iff in H.
    destruct H as [H | [H | H]].
    + destruct (streq key (lit "Escape")); simpl in H;
        [destruct H as [H | []]; discriminate H | contradiction].
    + destruct (streq key (lit "ArrowLeft")); simpl in H; [|contradiction].
      destruct (hasPrev currentIdx) eqn:E; simpl in H; [|contradiction].
      destruct H as [[= <-] | []]. left. split; [reflexivity|].
      now apply hasPrev_true.
    + destruct (streq key (lit "ArrowRight")); simpl in H; [|contradiction].
      destruct (hasNext images currentIdx) eqn:E; simpl in H; [|contradiction].
      destruct H as [[= <-] | []]. right. split; [reflexivity|].
      now apply hasNext_true.
  - destruct (hasPrev currentIdx) eqn:E; [|discriminate].
    intros [= <-] [[= <-] | []]. left. split; [reflexivity|].
    now apply hasPrev_true.
  - destruct (hasNext images currentIdx) eqn:E; [|discriminate].
    intros [= <-] [[= <-] | []]. right. split; [reflexivity|].
    now apply hasNext_true.
  - intros [= <-] [].
  - intros [= <-] [H | [H | []]]; discriminate H.
  - intros [= <-] [H | []]; discriminate H.
Qed.

(** C10. With a non-empty image list and a current index within
    [0, images.length - 1], every index passed to [onNavigate], from the
    arrow keys or from the previous and next buttons, is within
    [0, images.length - 1] too: a move left happens only when
    [currentIdx > 0], a move right only when
    [currentIdx < images.length - 1]. *)
Theorem navigation_stays_in_range
    (images : list jsstring) (currentIdx : Z) (a : Action)
    (effects : list Effect) (idx : Z) :
  images <> [] ->
  0 <= currentIdx <= length_images images - 1 ->
  dispatch images currentIdx a = Some effects ->
  In (onNavigate idx) effects ->
  0 <= idx <= length_images images - 1
  /\ ((idx = currentIdx - 1 /\ currentIdx > 0)
      \/ (idx = currentIdx + 1 /\ currentIdx < length_images images - 1)).
Proof.
  intros _ Hr Hd Hin.
  destruct (navigate_to_neighbour _ _ _ _ _ Hd Hin) as [[-> H] | [-> H]];
    (split; [lia|]); [left | right]; split; lia.
Qed.

Lemma navigation_stays_in_range_witness :
  0 <= 1 <= length_images [lit "a"; lit "b"] - 1
  /\ ((1 = 0 - 1 /\ 0 > 0)
      \/ (1 = 0 + 1 /\ 0 < length_images [lit "a"; lit "b"] - 1)).
Proof.
  apply (navigation_stays_in_range [lit "a"; lit "b"] 0
           (KeyDown (lit "ArrowRight")) [onNavigate 1] 1).
  - discriminate.
  - vm_compute. split; discriminate.
  - reflexivity.
  - simpl. left. reflexivity.
Defined.

(** The same through the page: the lightbox index the page holds after the
    action is a valid index again, or the lightbox is closed. *)
Lemma page_lightbox_index_in_range
    (st : Page.State) (currentIdx : Z) (a : Action) (effects : list Effect) :
  0 <= currentIdx <= length_images (Page.images st) - 1 ->
  dispatch (Page.images st) currentIdx a = Some effects ->
  forall e, In e effects ->
    match Page.lightboxIdx (run e st) with
    | Some idx => 0 <= idx <= length_images (Page.images st) - 1
    | None => True
    end.
Proof.
  intros Hr Hd e Hin. destruct e as [|idx]; simpl; [exact I|].
  destruct (navigate_to_neighbour _ _ _ _ _ Hd Hin) as [[-> H] | [-> H]]; lia.
Qed.

End LightboxNavigation.

(** ** Submitting the form *)

Section FormSubmit.

Import JS GeneratorForm.

Lemma handleSubmit_None (g : bool) (form : State) :
  handleSubmit g form = None <-> all_blank (prompt form) = true \/ g = true.
Proof.
  unfold handleSubmit. rewrite <- trim_empty.
  destruct (truthy (trim (prompt form))), g; simpl;
    intuition (discriminate || reflexivity).
Qed.

Lemma handleSubmit_Some (form : State) :
  all_blank (prompt form) = false ->
  handleSubmit false form = Some {|
    Types.mode := mode form;
    Types.prompt := trim (prompt form);
    Types.negative_prompt := negativePrompt form;
    Types.width := width form;
    Types.height := height form;
    Types.steps := steps form;
    Types.cfg_scale := cfgScale form;
    Types.seed := seed form;
    Types.batch_size := batchSize form;
    Types.sampler_name := samplerName form;
    Types.scheduler := scheduler form;
    Types.clip_skip := clipSkip form;
    Types.strength := strength form;
    Types.image := image form;
    Types.mask := mask form |}.
Proof.
  intros H. apply trim_nonempty in H. unfold handleSubmit. now rewrite H.
Qed.

Lemma handleSubmit_field (g : bool) (form : State) req (f : Field) :
  handleSubmit g form = Some req -> field_of f req = cell_of f form.
Proof.
  unfold handleSubmit.
  destruct (negb (truthy (trim (prompt form))) || g); [discriminate|].
  intros [= <-]. now destruct f.
Qed.

(** The submit button is disabled exactly when a submit would be dropped. *)
Lemma submitDisabled_iff (g : bool) (form : State) :
  submitDisabled g form = true <-> handleSubmit g form = None.
Proof.
  unfold submitDisabled, handleSubmit.
  destruct (negb (truthy (trim (prompt form))) || g); split;
    (reflexivity || discriminate).
Qed.

(** The page forwards what the form hands over, as it is. *)
Lemma submit_forwards (form : State) (st : Page.State) :
  snd (Page.submit form st) = handleSubmit (Page.isGenerating st) form.
Proof.
  unfold Page.submit.
  now destruct (handleSubmit (Page.isGenerating st) form).
Qed.

Lemma submit_rejected_keeps_page (form : State) (st : Page.State) :
  handleSubmit (Page.isGenerating st) form = None ->
  Page.submit form st = (st, None).
Proof. unfold Page.submit. now intros ->. Qed.

Lemma valid_number_inject (d : Z) : valid_number (inject_Z d) <-> valid_dim d.
Proof.
  split.
  - intros [d' [E V]]. unfold Qeq in E. simpl in E.
    now replace d with d' by lia.
  - intros V. exists d. split; [reflexivity | exact V].
Qed.

End FormSubmit.

(** ** generate.sh: parsing and the command line *)

Section ScriptRuns.

Import GenerateSh.
Local Open Scope string_scope.

Example run_prompt_only :
  main "/opt/Z-Image" ["-p"; "a cat"]
  = Run [ "/opt/Z-Image/stable-diffusion.cpp/build/bin/sd-cli";
          "--diffusion-model"; "/opt/Z-Image/models/z_image_turbo-Q6_K.gguf";
          "--vae"; "/opt/Z-Image/models/vae/split_files/vae/ae.safetensors";
          "--llm";
          "/opt/Z-Image/models/text_encoder/Qwen3-4B-Instruct-2507-Q4_K_M.gguf";
          "-p"; "a cat"; "--cfg-scale"; "1.0"; "--steps"; "8"; "--seed"; "-1";
          "--diffusion-fa"; "--offload-to-cpu"; "-H"; "1024"; "-W"; "1024";
          "-o"; "output.png" ].
Proof. reflexivity. Qed.

Example run_img2img :
  main "/opt/Z-Image" ["-p"; "oil painting style"; "-i"; "photo.png"]
  = Run [ "/opt/Z-Image/stable-diffusion.cpp/build/bin/sd-cli";
          "--diffusion-model"; "/opt/Z-Image/models/z_image_turbo-Q6_K.gguf";
          "--vae"; "/opt/Z-Image/models/vae/split_files/vae/ae.safetensors";
          "--llm";
          "/opt/Z-Image/models/text_encoder/Qwen3-4B-Instruct-2507-Q4_K_M.gguf";
          "-p"; "oil painting style"; "--cfg-scale"; "1.0"; "--steps"; "8";
          "--seed"; "-1"; "--diffusion-fa"; "--offload-to-cpu";
          "-H"; "1024"; "-W"; "1024"; "-o"; "output.png";
          "--init-img"; "photo.png"; "--strength"; "0.75" ].
Proof. reflexivity. Qed.

Example run_without_arguments :
  exists printed, main "/opt/Z-Image" [] = Exit 1 printed.
Proof. eexists. reflexivity. Qed.

Example run_unknown_option :
  main "/opt/Z-Image" ["--sampler"; "euler"]
  = Exit 1 ["Unknown option: --sampler"].
Proof. reflexivity. Qed.

Example run_option_without_value : main "/opt/Z-Image" ["-p"] = Loops.
Proof. reflexivity. Qed.

Lemma list_pair_ind {A} (P : list A -> Prop) :
  P [] -> (forall a, P [a]) -> (forall a b l, P l -> P (a :: b :: l)) ->
  forall l, P l.
Proof.
  intros H0 H1 H2.
  assert (H : forall l, P l /\ forall a, P (a :: l)).
  { induction l as [|b l [IH1 IH2]]; split; auto. }
  intros l. apply H.
Qed.

Lemma nonempty_true (s : string) : nonempty s = true <-> s <> EmptyString.
Proof. destruct s; simpl; split; (congruence || discriminate || auto). Qed.

(** What [main] runs is the command line built from the parsed variables,
    and only with a prompt that is not empty. *)
Lemma main_Run (dir : string) (args cmd : list string) :
  main dir args = Run cmd ->
  exists v, parse args defaults = Done v
            /\ PROMPT v <> EmptyString /\ cmd = CMD dir v.
Proof.
  unfold main. destruct (parse args defaults) as [v | opt |]; try discriminate.
  destruct (nonempty (PROMPT v)) eqn:E; [|discriminate].
  intros [= <-]. exists v. repeat split. now apply nonempty_true.
Qed.

Lemma main_empty_prompt (dir : string) (args : list string) (v : Vars) :
  parse args defaults = Done v -> PROMPT v = EmptyString ->
  exists printed, main dir args = Exit 1 printed.
Proof.
  unfold main. intros -> ->. simpl. eexists. reflexivity.
Qed.

(** A variable keeps its value through the loop when its option does not
    occur among the words. *)
Lemma parse_keeps (proj : Vars -> string) (flag : string) :
  (forall opt val v v',
      assign opt val v = Some v' -> (opt =? flag) = false -> proj v' = proj v) ->
  forall args v v',
    ~ In flag args -> parse args v = Done v' -> proj v' = proj v.
Proof.
  intros Hassign args.
  induction args as [| a | opt val rest IH] using list_pair_ind;
    intros v v' Hnot Hp.
  - now injection Hp as <-.
  - simpl in Hp. now destruct (assign a EmptyString v).
  - simpl in Hp. destruct (assign opt val v) as [v1|] eqn:E; [|discriminate].
    rewrite (IH v1 v'); [| simpl in Hnot; tauto | exact Hp].
    apply (Hassign _ _ _ _ E). apply String.eqb_neq.
    intros ->. apply Hnot. now left.
Qed.

Ltac assign_keeps :=
  let H := fresh "H" in
  let Hne := fresh "Hne" in
  intros ? ? ? ? H Hne; unfold assign in H;
  repeat match type of H with
         | context [if ?b then _ else _] => destruct b eqn:?
         end;
  try discriminate; try congruence;
  injection H as <-; reflexivity.

Lemma parse_keeps_STEPS args v v' :
  ~ In "-S" args -> parse args v = Done v' -> STEPS v' = STEPS v.
Proof. apply parse_keeps. assign_keeps. Qed.

Lemma parse_keeps_SEED args v v' :
  ~ In "--seed" args -> parse args v = Done v' -> SEED v' = SEED v.
Proof. apply parse_keeps. assign_keeps. Qed.

Lemma parse_keeps_WIDTH args v v' :
  ~ In "-W" args -> parse args v = Done v' -> WIDTH v' = WIDTH v.
Proof. apply parse_keeps. assign_keeps. Qed.

Lemma parse_keeps_HEIGHT args v v' :
  ~ In "-H" args -> parse args v = Done v' -> HEIGHT v' = HEIGHT v.
Proof. apply parse_keeps. assign_keeps. Qed.

Lemma parse_keeps_STRENGTH args v v' :
  ~ In "-s" args -> parse args v = Done v' -> STRENGTH v' = STRENGTH v.
Proof. apply parse_keeps. assign_keeps. Qed.

End ScriptRuns.

(** ** What the form checks and what it forwards *)

Section Requests.

Import JS GeneratorForm.

Variable ASPECT_RATIOS : list Types.AspectRatio.

Lemma handle_keeps (e : Event) (f : Field) (st : State) :
  sets e f = false -> cell_of f (handle ASPECT_RATIOS e st) = cell_of f st.
Proof.
  destruct e, f; simpl; intros H; try discriminate H; try reflexivity;
    unfold handleRatioSelect, handleFileDrop, handleFileSelect;
    repeat match goal with
           | |- context [match ?x with _ => _ end] => destruct x
           end;
    reflexivity.
Qed.

Lemma after_keeps (es : list Event) (f : Field) (st : State) :
  forallb (fun e => negb (sets e f)) es = true ->
  cell_of f (after ASPECT_RATIOS es st) = cell_of f st.
Proof.
  unfold after. revert st.
  induction es as [|e es IH]; intros st H; simpl in *; [reflexivity|].
  apply andb_true_iff in H as [He Hes].
  rewrite IH by exact Hes.
  apply handle_keeps. now apply negb_true_iff.
Qed.

Lemma cell_of_initial (f : Field) : cell_of f initial = default_of f.
Proof. now destruct f. Qed.

End Requests.

Section Forwarding.

Import JS GeneratorForm.
Local Open Scope string_scope.

Example submit_typed_width :
  snd (Page.submit (setPrompt (lit "a cat") (onWidthChange 1000 initial))
         Page.initial)
  = Some (Types.Build_GenerationValues Types.txt2img (lit "a cat") []
            1024 1024 8 1 (-1) 1 [] [] (-1) (3 # 4) None None).
Proof. reflexivity. Qed.

Example submit_blank_prompt :
  Page.submit (setPrompt (lit "  ") initial) Page.initial
  = (Page.initial, None).
Proof. reflexivity. Qed.

Example submit_while_generating :
  handleSubmit true (setPrompt (lit "a cat") initial) = None.
Proof. reflexivity. Qed.

(** What the form does with a typed size: [clamp64] replaces it by a valid
    size without notice, and the request is handed over with the replaced
    values; the form and the page themselves never check the sizes they
    hold. *)
Lemma dimensions_are_clamped_not_rejected
    (vw vh : number) (form : State) (st : Page.State) :
  all_blank (prompt form) = false ->
  Page.isGenerating st = false ->
  (exists req,
      snd (Page.submit (onHeightChange vh (onWidthChange vw form)) st)
      = Some req
      /\ Types.width req = inject_Z (clamp64 vw)
      /\ Types.height req = inject_Z (clamp64 vh)
      /\ valid_number (Types.width req)
      /\ valid_number (Types.height req))
  /\ (forall w h : number,
        exists req,
          snd (Page.submit (setHeight h (setWidth w form)) st) = Some req
          /\ Types.width req = w /\ Types.height req = h).
Proof.
  intros Hp Hg. split.
  - eexists. rewrite submit_forwards, Hg.
    split; [apply handleSubmit_Some; exact Hp|]. simpl.
    repeat split; try reflexivity;
      apply valid_number_inject, clamp64_valid.
  - intros w h. eexists. rewrite submit_forwards, Hg.
    split; [apply handleSubmit_Some; exact Hp|]. simpl. now split.
Qed.

Lemma dimensions_are_clamped_not_rejected_witness :
  exists req,
    snd (Page.submit
           (onHeightChange 30 (onWidthChange 5000
              (setPrompt (lit "a cat") initial))) Page.initial) = Some req
    /\ Types.width req = inject_Z (clamp64 5000)
    /\ Types.height req = inject_Z (clamp64 30)
    /\ valid_number (Types.width req)
    /\ valid_number (Types.height req).
Proof.
  apply (dimensions_are_clamped_not_rejected 5000 30
           (setPrompt (lit "a cat") initial) Page.initial);
    reflexivity.
Defined.

(** The form itself has no mask check: in inpaint mode, with a prompt and
    no mask, it hands the request to [generate], without a mask. *)
Example inpaint_without_mask_is_forwarded :
  let form := setPrompt (lit "a cat") (setMode Types.inpaint initial) in
  mode form = Types.inpaint
  /\ mask form = None
  /\ exists req,
       snd (Page.submit form Page.initial) = Some req
       /\ Types.mode req = Types.inpaint
       /\ Types.mask req = None.
Proof. cbv zeta. repeat split. eexists. repeat split. Qed.

(** The form drops a submission exactly when the prompt is blank or a
    generation is running, whatever the mode, the image and the mask are. *)
Lemma submit_ignores_mode_and_mask (g : bool) (form : State) :
  (handleSubmit g form = None <-> all_blank (prompt form) = true \/ g = true)
  /\ (forall m file url,
        (handleSubmit g (setMode m form) = None <-> handleSubmit g form = None)
        /\ (handleSubmit g (setMaskPreview url (setMask file form)) = None
            <-> handleSubmit g form = None)
        /\ (handleSubmit g (setImagePreview url (setImage file form)) = None
            <-> handleSubmit g form = None))
  /\ (mode form = Types.inpaint -> mask form = None ->
      all_blank (prompt form) = false -> g = false ->
      exists req, handleSubmit g form = Some req
                  /\ Types.mode req = Types.inpaint
                  /\ Types.mask req = None).
Proof.
  split; [apply handleSubmit_None|]. split.
  - intros m file url. rewrite !handleSubmit_None. simpl. tauto.
  - intros Hm Hk Hp ->. eexists.
    split; [apply handleSubmit_Some; exact Hp|]. simpl. now split.
Qed.

Lemma submit_ignores_mode_and_mask_witness :
  exists req,
    handleSubmit false (setPrompt (lit "a cat") (setMode Types.inpaint initial))
    = Some req
    /\ Types.mode req = Types.inpaint /\ Types.mask req = None.
Proof.
  apply (proj2 (proj2 (submit_ignores_mode_and_mask false
           (setPrompt (lit "a cat") (setMode Types.inpaint initial)))));
    reflexivity.
Defined.

End Forwarding.

(** ** Health status *)

Section HealthTable.

Import Health.

(** C4. The health status is a function of the engine state alone: Starting,
    Crashed and Stopped give down, Degraded gives degraded, Ready gives ok;
    two processes in the same state have the same status, whatever their
    other fields and whenever the status is computed. *)
Theorem health_status_depends_on_state_only :
  (status_of Starting = down /\ status_of Crashed = down
   /\ status_of Stopped = down /\ status_of Degraded = degraded
   /\ status_of Ready = ok)
  /\ (forall now p, status (compute now p) = status_of (state p))
  /\ (forall now1 now2 p1 p2,
        state p1 = state p2 ->
        status (compute now1 p1) = status (compute now2 p2))
  /\ (forall s, In s all_states)
  /\ (forall s, status_of s = ok <-> s = Ready).
Proof.
  repeat split; try reflexivity.
  - intros now1 now2 p1 p2 H. simpl. now rewrite H.
  - intros s. destruct s; simpl; tauto.
  - destruct s; simpl; congruence.
  - intros ->. reflexivity.
Qed.

Lemma health_status_depends_on_state_only_witness :
  status (compute 10 {| state := Degraded; restart_count := 0;
                        last_health_check := 5 |})
  = status (compute 99 {| state := Degraded; restart_count := 3;
                          last_health_check := 98 |}).
Proof.
  apply (proj1 (proj2 (proj2 health_status_depends_on_state_only))).
  reflexivity.
Defined.

End HealthTable.

(** ** The admission queue *)

Section Admission.

Import Gateway.

Variable depth : nat.

Example three_callers_depth_one :
  run 1 idle [Arrive 1; Arrive 2; Arrive 3; Complete; Complete]%nat
  = (idle, [Forward 1; Backpressure 3; Reply 1; Forward 2; Reply 2]%nat).
Proof. reflexivity. Qed.

Example four_callers_depth_two :
  snd (run 2 idle [Arrive 1; Arrive 2; Arrive 3; Complete; Arrive 4;
                   Complete; Complete; Complete]%nat)
  = [Forward 1; Reply 1; Forward 2; Reply 2; Forward 3; Reply 3; Forward 4;
     Reply 4]%nat.
Proof. reflexivity. Qed.















End Admission.


(** ** More on rounding and clamping *)

Section ClampMore.

Import JS GeneratorForm.

Lemma Math_round_bounds (x : Q) :
  (inject_Z (Math_round x) <= x + (1 # 2)
   /\ x + (1 # 2) < inject_Z (Math_round x) + 1)%Q.
Proof.
  unfold Math_round. split.
  - apply Qfloor_le.
  - pose proof (Qlt_floor (x + (1 # 2))) as H.
    rewrite inject_Z_plus in H. exact H.
Qed.

Lemma Math_round_mono (x y : Q) :
  (x <= y)%Q -> Math_round x <= Math_round y.
Proof.
  intros H. unfold Math_round. apply Qfloor_resp_le. lra.
Qed.

(** X1. For every finite number, [roundTo64] gives the multiple of 64
    nearest to it: a multiple of 64 at most 32 away, the upper one when two
    are equally near, and the only multiple of 64 in that place. *)
Theorem roundTo64_nearest (x : Q) :
  (64 | roundTo64 x)
  /\ (x - 32 < inject_Z (roundTo64 x) /\ inject_Z (roundTo64 x) <= x + 32)%Q
  /\ (forall m : Z,
        (64 | m) ->
        (x - 32 < inject_Z m /\ inject_Z m <= x + 32)%Q ->
        m = roundTo64 x)
  /\ (forall k : Z, roundTo64 (inject_Z (64 * k + 32)) = 64 * (k + 1)).
Proof.
  assert (B : (x - 32 < inject_Z (roundTo64 x)
               /\ inject_Z (roundTo64 x) <= x + 32)%Q).
  { unfold roundTo64. rewrite inject_Z_mult.
    destruct (Math_round_bounds (x / 64)) as [H1 H2].
    change (inject_Z 64) with 64%Q.
    assert (E : (x == 64 * (x / 64))%Q) by field.
    split; lra. }
  split; [apply roundTo64_multiple|]. split; [exact B|]. split.
  - intros m [j Hj] [M1 M2]. destruct B as [B1 B2].
    destruct (roundTo64_multiple x) as [k Hk].
    assert (U : (inject_Z (m - roundTo64 x) < inject_Z 64)%Q).
    { unfold Z.sub. rewrite inject_Z_plus, inject_Z_opp.
      change (inject_Z 64) with 64%Q. lra. }
    assert (L : (inject_Z (roundTo64 x - m) < inject_Z 64)%Q).
    { unfold Z.sub. rewrite inject_Z_plus, inject_Z_opp.
      change (inject_Z 64) with 64%Q. lra. }
    rewrite <- Zlt_Qlt in U, L. lia.
  - intros k. rewrite roundTo64_Z.
    replace (64 * k + 32 + 32) with ((k + 1) * 64) by lia.
    rewrite Z.div_mul by lia. lia.
Qed.

Lemma roundTo64_nearest_witness : 128 = roundTo64 100.
Proof.
  apply (proj1 (proj2 (proj2 (roundTo64_nearest 100))) 128).
  - now exists 2.
  - split; reflexivity || (unfold Qle; simpl; lia).
Defined.

(** X2. [clamp64] never reverses the order of two sizes. *)
Theorem clamp64_monotone (x y : Q) :
  (x <= y)%Q -> clamp64 x <= clamp64 y.
Proof.
  intros H. unfold clamp64, roundTo64.
  assert (M : Math_round (x / 64) <= Math_round (y / 64)).
  { apply Math_round_mono. unfold Qdiv.
    apply Qmult_le_compat_r; [exact H|]. unfold Qle; simpl; lia. }
  lia.
Qed.

Lemma clamp64_monotone_witness : clamp64 100 <= clamp64 (401 # 2).
Proof. apply clamp64_monotone. unfold Qle; simpl; lia. Defined.

Lemma roundTo64_le_iff (x : Q) (k : Z) :
  roundTo64 x <= 64 * k <-> (x < inject_Z (64 * k + 32))%Q.
Proof.
  unfold roundTo64.
  destruct (Math_round_bounds (x / 64)) as [H1 H2].
  assert (E : (x == 64 * (x / 64))%Q) by field.
  rewrite inject_Z_plus, inject_Z_mult.
  change (inject_Z 64) with 64%Q. change (inject_Z 32) with 32%Q.
  split; intros H.
  - assert (L : Math_round (x / 64) <= k) by lia.
    rewrite Zle_Qle in L. lra.
  - assert (L : (inject_Z (Math_round (x / 64)) < inject_Z (k + 1))%Q).
    { rewrite inject_Z_plus. change (inject_Z 1) with 1%Q. lra. }
    rewrite <- Zlt_Qlt in L. lia.
Qed.

(** X3. The two ends of the clamp: everything below 96 becomes 64, everything
    from 2016 on becomes 2048, and nothing else does. *)
Theorem clamp64_ends (x : Q) :
  (clamp64 x = 64 <-> (x < 96)%Q) /\ (clamp64 x = 2048 <-> (2016 <= x)%Q).
Proof.
  pose proof (roundTo64_le_iff x 1) as H1.
  pose proof (roundTo64_le_iff x 31) as H2.
  change (inject_Z (64 * 1 + 32)) with 96%Q in H1.
  change (inject_Z (64 * 31 + 32)) with 2016%Q in H2.
  destruct (roundTo64_multiple x) as [k Hk].
  unfold clamp64. rewrite Hk in *. split; split; intros H.
  - apply H1. lia.
  - apply H1 in H. lia.
  - apply Qnot_lt_le. intros L. apply H2 in L. lia.
  - assert (N : ~ k * 64 <= 64 * 31).
    { intros L. apply H2 in L. lra. }
    lia.
Qed.

End ClampMore.

Lemma clamp64_ends_witness : GeneratorForm.clamp64 (191 # 2) = 64.
Proof.
  apply (proj2 (proj1 (clamp64_ends (191 # 2)))). unfold Qlt; simpl; lia.
Defined.

(** ** More on [trim] and the forwarded prompt *)

Section TrimMore.

Import JS GeneratorForm.

Lemma trimStart_split (s : jsstring) :
  exists pre, s = pre ++ trimStart s /\ all_blank pre = true.
Proof.
  induction s as [|c s [pre [E B]]]; simpl.
  - now exists [].
  - destruct (is_trimmed_unit c) eqn:Ec.
    + exists (c :: pre). simpl. rewrite Ec, B. now rewrite <- E.
    + now exists [].
Qed.

Lemma trimStart_fixed (s : jsstring) :
  match s with [] => True | c :: _ => is_trimmed_unit c = false end ->
  trimStart s = s.
Proof. destruct s as [|c s]; simpl; [reflexivity|]. now intros ->. Qed.

(** The trimmed string sits inside the original one, between two runs of
    white space. *)
Lemma trim_split (s : jsstring) :
  exists pre post,
    s = pre ++ trim s ++ post
    /\ all_blank pre = true /\ all_blank post = true.
Proof.
  destruct (trimStart_split s) as [pre [E B]].
  destruct (trimStart_split (rev (trimStart s))) as [q [E' B']].
  exists pre, (rev q). unfold trim, trimEnd.
  rewrite <- rev_app_distr, <- E', rev_involutive.
  repeat split; [exact E | exact B | now rewrite all_blank_rev].
Qed.

Lemma trim_head (s : jsstring) c r :
  trim s = c :: r -> is_trimmed_unit c = false.
Proof.
  intros H.
  destruct (trimStart_split (rev (trimStart s))) as [q [E' _]].
  apply (f_equal (@rev _)) in E'.
  rewrite rev_involutive, rev_app_distr in E'.
  change (rev (trimStart (rev (trimStart s)))) with (trim s) in E'.
  rewrite H in E'. simpl in E'.
  now apply (trimStart_head s c (r ++ rev q)).
Qed.

Lemma trim_last (s : jsstring) r d :
  trim s = r ++ [d] -> is_trimmed_unit d = false.
Proof.
  unfold trim, trimEnd. intros H.
  apply (f_equal (@rev _)) in H.
  rewrite rev_involutive, rev_app_distr in H. simpl in H.
  now apply trimStart_head in H.
Qed.

(** [trim] leaves no white space at either end, keeps the text in between
    as it is, and trimming twice changes nothing more. *)
Theorem trim_strips_both_ends (s : jsstring) :
  (exists pre post,
      s = pre ++ trim s ++ post
      /\ all_blank pre = true /\ all_blank post = true)
  /\ (forall c r, trim s = c :: r -> is_trimmed_unit c = false)
  /\ (forall r d, trim s = r ++ [d] -> is_trimmed_unit d = false)
  /\ trim (trim s) = trim s.
Proof.
  split; [apply trim_split|]. split; [apply trim_head|].
  split; [apply trim_last|].
  destruct (trim s) as [|c r] eqn:E; [reflexivity|].
  unfold trim at 1. rewrite trimStart_fixed by exact (trim_head s c r E).
  unfold trimEnd.
  destruct (rev (c :: r)) as [|d u] eqn:Er.
  - apply (f_equal (@rev _)) in Er. rewrite rev_involutive in Er.
    discriminate Er.
  - assert (Hd : is_trimmed_unit d = false).
    { apply (trim_last s (rev u) d). rewrite E.
      apply (f_equal (@rev _)) in Er. now rewrite rev_involutive in Er. }
    rewrite trimStart_fixed by exact Hd.
    now rewrite <- Er, rev_involutive.
Qed.

Lemma trim_strips_both_ends_witness :
  is_trimmed_unit 97%N = false.
Proof.
  apply (proj1 (proj2 (trim_strips_both_ends (lit "  a cat ")))
           97%N (lit " cat")).
  reflexivity.
Defined.

(** X4. The prompt of every request the form hands over is the typed prompt
    without the white space around it: it is not empty and neither starts
    nor ends with white space. *)
Theorem forwarded_prompt_is_trimmed (g : bool) (form : State) req :
  handleSubmit g form = Some req ->
  Types.prompt req = trim (prompt form)
  /\ Types.prompt req <> []
  /\ (forall c r, Types.prompt req = c :: r -> is_trimmed_unit c = false)
  /\ (forall r d, Types.prompt req = r ++ [d] -> is_trimmed_unit d = false)
  /\ exists pre post,
       prompt form = pre ++ Types.prompt req ++ post
       /\ all_blank pre = true /\ all_blank post = true.
Proof.
  unfold handleSubmit.
  destruct (truthy (trim (prompt form))) eqn:T; simpl; [|discriminate].
  destruct g; simpl; [discriminate|]. intros [= <-]. simpl.
  split; [reflexivity|]. split.
  - intros E. now rewrite E in T.
  - split; [apply trim_head|]. split; [apply trim_last | apply trim_split].
Qed.

Lemma forwarded_prompt_is_trimmed_witness :
  Types.prompt
    (Types.Build_GenerationValues Types.txt2img (lit "a cat") []
       1024 1024 8 1 (-1) 1 [] [] (-1) (3 # 4) None None)
  = trim (prompt (setPrompt (lit " a cat  ") initial)).
Proof.
  apply (forwarded_prompt_is_trimmed false
           (setPrompt (lit " a cat  ") initial)).
  reflexivity.
Defined.

End TrimMore.

(** ** Invariants of the form *)

Section FormInvariants.

Import JS GeneratorForm.

Variable ASPECT_RATIOS : list Types.AspectRatio.

Lemma streq_eq (a b : jsstring) : streq a b = true <-> a = b.
Proof.
  revert b. induction a as [|x a IH]; intros [|y b]; simpl;
    try (split; (reflexivity || discriminate)).
  rewrite andb_true_iff, N.eqb_eq, IH. split.
  - now intros [-> ->].
  - now intros [= -> ->].
Qed.

Lemma find_some {A} (pred : A -> bool) (xs : list A) (x : A) :
  find pred xs = Some x -> In x xs /\ pred x = true.
Proof.
  induction xs as [|y xs IH]; simpl; [discriminate|].
  destruct (pred y) eqn:E.
  - intros [= <-]. now split; [left|].
  - intros H. destruct (IH H). now split; [right|].
Qed.

Lemma find_none {A} (pred : A -> bool) (xs : list A) :
  (forall x, In x xs -> pred x = false) -> find pred xs = None.
Proof.
  induction xs as [|y xs IH]; simpl; intros H; [reflexivity|].
  rewrite (H y) by now left. apply IH. intros x Hx. apply H. now right.
Qed.

Lemma valid_number_1024 : valid_number 1024.
Proof.
  apply (valid_number_inject 1024). split; [now exists 16 | lia].
Qed.

Lemma handle_sizes_valid (e : Event) (st : State) :
  table_valid ASPECT_RATIOS -> sizes_valid st ->
  sizes_valid (handle ASPECT_RATIOS e st).
Proof.
  intros Ht [Hw Hh]. unfold sizes_valid.
  destruct e; simpl; try (split; assumption).
  - unfold handleRatioSelect.
    destruct (find _ ASPECT_RATIOS) as [r|] eqn:F; simpl;
      [|split; assumption].
    apply find_some in F as [Hin _].
    unfold table_valid in Ht. rewrite Forall_forall in Ht.
    exact (Ht r Hin).
  - split; [apply valid_number_inject, clamp64_valid | exact Hh].
  - split; [exact Hw | apply valid_number_inject, clamp64_valid].
  - unfold handleFileDrop. destruct files as [|f fs]; [now split|].
    destruct (startsWith _ _); now split.
  - unfold handleFileSelect. destruct files; now split.
  - unfold handleFileDrop. destruct files as [|f fs]; [now split|].
    destruct (startsWith _ _); now split.
  - unfold handleFileSelect. destruct files; now split.
Qed.

Lemma after_sizes_valid (es : list Event) (st : State) :
  table_valid ASPECT_RATIOS -> sizes_valid st ->
  sizes_valid (after ASPECT_RATIOS es st).
Proof.
  intros Ht. unfold after. revert st.
  induction es as [|e es IH]; intros st H; simpl; [exact H|].
  apply IH. now apply handle_sizes_valid.
Qed.

(** X5. When the ratio table holds valid sizes only, so does the form, whatever
    the user does, and every request it hands over has a width and a height
    that are multiples of 64 within [64, 2048]. *)
Theorem form_sizes_stay_valid (es : list Event) (g : bool) req :
  table_valid ASPECT_RATIOS ->
  handleSubmit g (after ASPECT_RATIOS es initial) = Some req ->
  valid_number (Types.width req) /\ valid_number (Types.height req).
Proof.
  intros Ht Hs.
  pose proof (handleSubmit_field _ _ _ FWidth Hs) as Ew.
  pose proof (handleSubmit_field _ _ _ FHeight Hs) as Eh.
  simpl in Ew, Eh. injection Ew as ->. injection Eh as ->.
  apply after_sizes_valid; [exact Ht|].
  split; apply valid_number_1024.
Qed.

(** X6. Choosing a ratio twice is choosing it once; the chosen label is always
    recorded; and a label the table lacks leaves the size alone. *)
Theorem handleRatioSelect_idempotent (l : jsstring) (st : State) :
  handleRatioSelect ASPECT_RATIOS l (handleRatioSelect ASPECT_RATIOS l st)
  = handleRatioSelect ASPECT_RATIOS l st
  /\ selectedRatio (handleRatioSelect ASPECT_RATIOS l st) = l
  /\ ((forall r, In r ASPECT_RATIOS -> Types.label r <> l) ->
      width (handleRatioSelect ASPECT_RATIOS l st) = width st
      /\ height (handleRatioSelect ASPECT_RATIOS l st) = height st).
Proof.
  unfold handleRatioSelect. split; [|split].
  - now destruct (find _ ASPECT_RATIOS).
  - now destruct (find _ ASPECT_RATIOS).
  - intros H. rewrite find_none; [now split|].
    intros r Hr. destruct (streq (Types.label r) l) eqn:E; [|reflexivity].
    apply streq_eq in E. now destruct (H r Hr).
Qed.

(** X7. A ratio the table has sets the size to its first entry of that label. *)
Theorem handleRatioSelect_known (l : jsstring) (st : State) pre r post :
  ASPECT_RATIOS = pre ++ r :: post ->
  Types.label r = l ->
  (forall r', In r' pre -> Types.label r' <> l) ->
  width (handleRatioSelect ASPECT_RATIOS l st) = Types.ratio_width r
  /\ height (handleRatioSelect ASPECT_RATIOS l st) = Types.ratio_height r.
Proof.
  intros -> Hl Hpre. unfold handleRatioSelect.
  assert (F : find (fun r0 => streq (Types.label r0) l) (pre ++ r :: post)
              = Some r).
  { induction pre as [|p pre IH]; simpl.
    - now rewrite (proj2 (streq_eq _ _) Hl).
    - destruct (streq (Types.label p) l) eqn:E.
      + apply streq_eq in E. now destruct (Hpre p (or_introl eq_refl)).
      + apply IH. intros r' Hr'. apply Hpre. now right. }
  rewrite F. now split.
Qed.

Lemma handle_previews_paired (e : Event) (st : State) :
  previews_paired st -> previews_paired (handle ASPECT_RATIOS e st).
Proof.
  unfold previews_paired. intros [Hi Hm].
  destruct e; simpl; try (split; assumption);
    unfold handleRatioSelect, handleFileDrop, handleFileSelect;
    repeat match goal with
           | |- context [match ?x with _ => _ end] => destruct x
           end;
    simpl; try (split; assumption);
    (split; [try exact Hi | try exact Hm]); split; discriminate.
Qed.

Lemma handle_keeps_uploads (e : Event) (st : State) :
  (image st <> None -> image (handle ASPECT_RATIOS e st) <> None)
  /\ (mask st <> None -> mask (handle ASPECT_RATIOS e st) <> None).
Proof.
  destruct e; simpl; try (split; intros H; exact H);
    unfold handleRatioSelect, handleFileDrop, handleFileSelect;
    repeat match goal with
           | |- context [match ?x with _ => _ end] => destruct x
           end;
    simpl; split; intros H; (exact H || discriminate).
Qed.

(** X8. Whatever the user does, a chosen image or mask is never removed again,
    only replaced (also across a change of mode), each upload has its
    preview and each preview its upload, and what the form holds is what the
    request carries, in every mode. *)
Theorem uploads_are_never_cleared (es : list Event) (st : State) :
  previews_paired st ->
  previews_paired (after ASPECT_RATIOS es st)
  /\ (image st <> None -> image (after ASPECT_RATIOS es st) <> None)
  /\ (mask st <> None -> mask (after ASPECT_RATIOS es st) <> None)
  /\ (forall g req,
        handleSubmit g (after ASPECT_RATIOS es st) = Some req ->
        Types.image req = image (after ASPECT_RATIOS es st)
        /\ Types.mask req = mask (after ASPECT_RATIOS es st)).
Proof.
  unfold after. revert st.
  induction es as [|e es IH]; intros st Hp; simpl.
  - split; [exact Hp|]. split; [auto|]. split; [auto|].
    intros g req H. unfold handleSubmit in H.
    destruct (negb (truthy (trim (prompt st))) || g); [discriminate|].
    injection H as <-. now split.
  - destruct (IH (handle ASPECT_RATIOS e st)
                (handle_previews_paired e st Hp)) as [H1 [H2 [H3 H4]]].
    destruct (handle_keeps_uploads e st) as [K1 K2].
    split; [exact H1|]. split; [auto|]. split; [auto|]. exact H4.
Qed.

End FormInvariants.

Lemma form_sizes_stay_valid_witness :
  GeneratorForm.valid_number 1344 /\ GeneratorForm.valid_number 1024.
Proof.
  apply (form_sizes_stay_valid
           [ {| Types.label := JS.lit "16:9"; Types.ratio_width := 1344;
                Types.ratio_height := 768 |} ]
           [ GeneratorForm.ChangePrompt (JS.lit "a cat");
             GeneratorForm.ClickRatio (JS.lit "16:9");
             GeneratorForm.ClickCustom;
             GeneratorForm.ChangeHeight 1000 ]
           false
           (Types.Build_GenerationValues Types.txt2img (JS.lit "a cat") []
              1344 1024 8 1 (-1) 1 [] [] (-1) (3 # 4) None None)).
  - constructor; [|constructor]. simpl. split.
    + exists 1344. split; [reflexivity|]. split; [now exists 21 | lia].
    + exists 768. split; [reflexivity|]. split; [now exists 12 | lia].
  - reflexivity.
Defined.

Lemma handleRatioSelect_idempotent_witness :
  GeneratorForm.width
    (GeneratorForm.handleRatioSelect
       [ {| Types.label := JS.lit "16:9"; Types.ratio_width := 1344;
            Types.ratio_height := 768 |} ]
       (JS.lit "4:3") GeneratorForm.initial)
  = GeneratorForm.width GeneratorForm.initial
  /\ GeneratorForm.height
       (GeneratorForm.handleRatioSelect
          [ {| Types.label := JS.lit "16:9"; Types.ratio_width := 1344;
               Types.ratio_height := 768 |} ]
          (JS.lit "4:3") GeneratorForm.initial)
     = GeneratorForm.height GeneratorForm.initial.
Proof.
  apply (proj2 (proj2 (handleRatioSelect_idempotent
    [ {| Types.label := JS.lit "16:9"; Types.ratio_width := 1344;
         Types.ratio_height := 768 |} ]
    (JS.lit "4:3") GeneratorForm.initial))).
  intros r [<- | []]. discriminate.
Defined.

Lemma handleRatioSelect_known_witness :
  GeneratorForm.width
    (GeneratorForm.handleRatioSelect
       [ {| Types.label := JS.lit "1:1"; Types.ratio_width := 1024;
            Types.ratio_height := 1024 |};
         {| Types.label := JS.lit "16:9"; Types.ratio_width := 1344;
            Types.ratio_height := 768 |} ]
       (JS.lit "16:9") GeneratorForm.initial)
  = 1344%Q
  /\ GeneratorForm.height
       (GeneratorForm.handleRatioSelect
          [ {| Types.label := JS.lit "1:1"; Types.ratio_width := 1024;
               Types.ratio_height := 1024 |};
            {| Types.label := JS.lit "16:9"; Types.ratio_width := 1344;
               Types.ratio_height := 768 |} ]
          (JS.lit "16:9") GeneratorForm.initial)
     = 768%Q.
Proof.
  apply (handleRatioSelect_known _ (JS.lit "16:9") GeneratorForm.initial
           [ {| Types.label := JS.lit "1:1"; Types.ratio_width := 1024;
                Types.ratio_height := 1024 |} ]
           {| Types.label := JS.lit "16:9"; Types.ratio_width := 1344;
              Types.ratio_height := 768 |}
           []).
  - reflexivity.
  - reflexivity.
  - intros r [<- | []]. discriminate.
Defined.

Lemma uploads_are_never_cleared_witness :
  GeneratorForm.image
    (GeneratorForm.after []
       [ GeneratorForm.ClickMode Types.txt2img;
         GeneratorForm.ChangePrompt (JS.lit "a cat") ]
       (GeneratorForm.handleFileSelect GeneratorForm.setImage
          GeneratorForm.setImagePreview
          [ {| Types.file_type := JS.lit "image/png";
               Types.file_bytes := [] |} ]
          (JS.lit "blob:1")
          (GeneratorForm.setMode Types.img2img GeneratorForm.initial)))
  <> None.
Proof.
  apply (proj1 (proj2 (uploads_are_never_cleared []
    [ GeneratorForm.ClickMode Types.txt2img;
      GeneratorForm.ChangePrompt (JS.lit "a cat") ]
    (GeneratorForm.handleFileSelect GeneratorForm.setImage
       GeneratorForm.setImagePreview
       [ {| Types.file_type := JS.lit "image/png"; Types.file_bytes := [] |} ]
       (JS.lit "blob:1")
       (GeneratorForm.setMode Types.img2img GeneratorForm.initial))
    ltac:(split; simpl; split; intros H; (discriminate H || reflexivity))))).
  discriminate.
Defined.

(** ** The estimate as a function of the request *)

Section EstimateMore.

Import JS Page.

Lemma estimate_exact_pos (w h s : Z) :
  1 <= w -> 1 <= h -> 1 <= s -> 1875 * (w * h * s) < 2 ^ 53 ->
  (estimate (request_of (inject_Z w) (inject_Z h) (inject_Z s))
   == inject_Z (w * h * s) * (1875 # 524288))%Q.
Proof.
  intros Hw Hh Hs Hb.
  assert (P1 : 1 <= w * h) by nia.
  assert (P2 : w * h <= w * h * s) by nia.
  assert (P3 : s <= w * h * s) by nia.
  apply estimate_exact; try reflexivity; lia.
Qed.

(** X9. On integer sizes and step counts of at least 1, as long as
    1875 * k * w * h * s stays below 2^53 (where binary64 does not round),
    the estimate is proportional to the step count and to each side: [k]
    times the steps, or a side [k] times as long, gives [k] times the
    estimate.  On non-negative integers in that range it is 0 exactly when
    a side or the step count is 0. *)
Theorem estimate_scales :
  (forall w h s k : Z,
      1 <= w -> 1 <= h -> 1 <= s -> 1 <= k ->
      1875 * (k * (w * h * s)) < 2 ^ 53 ->
      (estimate (request_of (inject_Z w) (inject_Z h) (inject_Z (k * s)))
       == inject_Z k
          * estimate (request_of (inject_Z w) (inject_Z h) (inject_Z s)))%Q
      /\ (estimate (request_of (inject_Z (k * w)) (inject_Z h) (inject_Z s))
          == inject_Z k
             * estimate (request_of (inject_Z w) (inject_Z h) (inject_Z s)))%Q
      /\ (estimate (request_of (inject_Z w) (inject_Z (k * h)) (inject_Z s))
          == inject_Z k
             * estimate (request_of (inject_Z w) (inject_Z h) (inject_Z s)))%Q)
  /\ (forall w h s : Z,
        0 <= w -> 0 <= h -> 0 <= s -> s < 2 ^ 53 ->
        1875 * (w * h) < 2 ^ 53 -> 1875 * (w * h * s) < 2 ^ 53 ->
        ((estimate (request_of (inject_Z w) (inject_Z h) (inject_Z s)) == 0)%Q
         <-> w = 0 \/ h = 0 \/ s = 0)).
Proof.
  split.
  - intros w h s k Hw Hh Hs Hk Hb.
    assert (P0 : 1 <= w * h * s) by nia.
    assert (P1 : w * h * s <= k * (w * h * s)) by nia.
    assert (E0 : (estimate (request_of (inject_Z w) (inject_Z h) (inject_Z s))
                  == inject_Z (w * h * s) * (1875 # 524288))%Q)
      by (apply estimate_exact_pos; lia).
    assert (E1 : (estimate
                    (request_of (inject_Z w) (inject_Z h) (inject_Z (k * s)))
                  == inject_Z (w * h * (k * s)) * (1875 # 524288))%Q).
    { apply estimate_exact_pos; [lia | lia | nia |].
      replace (w * h * (k * s)) with (k * (w * h * s)) by ring. exact Hb. }
    assert (E2 : (estimate
                    (request_of (inject_Z (k * w)) (inject_Z h) (inject_Z s))
                  == inject_Z (k * w * h * s) * (1875 # 524288))%Q).
    { apply estimate_exact_pos; [nia | lia | lia |].
      replace (k * w * h * s) with (k * (w * h * s)) by ring. exact Hb. }
    assert (E3 : (estimate
                    (request_of (inject_Z w) (inject_Z (k * h)) (inject_Z s))
                  == inject_Z (w * (k * h) * s) * (1875 # 524288))%Q).
    { apply estimate_exact_pos; [lia | nia | lia |].
      replace (w * (k * h) * s) with (k * (w * h * s)) by ring. exact Hb. }
    rewrite E0, E1, E2, E3, !inject_Z_mult. repeat split; ring.
  - intros w h s Hw Hh Hs Bs Bp Bt.
    rewrite (estimate_exact (request_of (inject_Z w) (inject_Z h) (inject_Z s))
               w h s) by (reflexivity || assumption).
    split.
    + intros H. apply Qmult_integral in H as [H | H]; [|discriminate H].
      assert (Z0 : w * h * s = 0).
      { unfold Qeq, inject_Z in H. simpl in H. lia. }
      apply Z.mul_eq_0 in Z0 as [Z0 | Z0]; [|now right; right].
      apply Z.mul_eq_0 in Z0 as [Z0 | Z0]; [now left | now right; left].
    + intros [-> | [-> | ->]];
        [ | replace (w * 0 * s) with 0 by ring
          | replace (w * h * 0) with 0 by ring ]; reflexivity.
Qed.

Lemma estimate_scales_witness :
  (estimate (request_of (inject_Z 512) (inject_Z 512) (inject_Z (2 * 4)))
   == inject_Z 2
      * estimate (request_of (inject_Z 512) (inject_Z 512) (inject_Z 4)))%Q.
Proof.
  exact (proj1 (proj1 estimate_scales 512 512 4 2
                  ltac:(lia) ltac:(lia) ltac:(lia) ltac:(lia)
                  ltac:(vm_compute; reflexivity))).
Defined.

(** X10. On what the form can send, sides that are multiples of 64 within
    [64, 2048] and 1 to 150 steps, the estimate lies between 1875/128 ms
    (about 14.6 ms) and 2250000 ms (37.5 minutes), and both ends are
    reached. *)
Theorem estimate_bounds_on_form_requests (w h s : Z) :
  GeneratorForm.valid_dim w -> GeneratorForm.valid_dim h -> 1 <= s <= 150 ->
  ((1875 # 128)
   <= estimate (request_of (inject_Z w) (inject_Z h) (inject_Z s))
   <= 2250000)%Q.
Proof.
  intros [_ Hw] [_ Hh] Hs.
  assert (P0 : 4096 <= w * h) by nia.
  assert (R0 : w * h <= 4194304) by nia.
  assert (P : 4096 <= w * h * s) by nia.
  assert (R : w * h * s <= 629145600) by nia.
  rewrite (estimate_exact_pos w h s) by lia.
  unfold Qle, Qmult, inject_Z; simpl Qnum; simpl Qden.
  split; lia.
Qed.

Lemma estimate_bounds_on_form_requests_witness :
  ((1875 # 128)
   <= estimate (request_of (inject_Z 64) (inject_Z 64) (inject_Z 1))
   <= 2250000)%Q.
Proof.
  apply estimate_bounds_on_form_requests.
  - split; [now exists 1 | lia].
  - split; [now exists 1 | lia].
  - lia.
Defined.

Example estimate_lowest :
  (estimate (request_of 64 64 1) == 1875 # 128)%Q.
Proof. vm_compute. reflexivity. Qed.

Example estimate_highest :
  (estimate (request_of 2048 2048 150) == 2250000)%Q.
Proof. vm_compute. reflexivity. Qed.

(** X11. One whole generation, from the call to its settling: the flag is down
    again whatever happened; a success clears an earlier error and leaves
    none, a failure records the message of the error, or "Generation
    failed" when what was thrown is no Error, and leaves the gallery as it
    was; the lightbox index is not touched. *)
Theorem handleGenerate_outcome (values : Types.GenerationValues)
    (o : Outcome) (st : State) :
  isGenerating (handleGenerate values o st) = false
  /\ lightboxIdx (handleGenerate values o st) = lightboxIdx st
  /\ error (handleGenerate values o st)
     = match o with
       | Fulfilled _ => None
       | RejectedError message => Some message
       | RejectedOther => Some (lit "Generation failed")
       end
  /\ (error (handleGenerate values o st) = None
      <-> exists result_images, o = Fulfilled result_images)
  /\ ((forall result_images, o <> Fulfilled result_images) ->
      images (handleGenerate values o st) = images st).
Proof.
  unfold handleGenerate. simpl.
  split; [reflexivity|]. split; [reflexivity|].
  split; [now destruct o|]. split.
  - destruct o; split; try discriminate; eauto.
    + intros [x Hx]. discriminate Hx.
    + intros [x Hx]. discriminate Hx.
  - intros H. destruct o; try reflexivity. now destruct (H result_images).
Qed.

Lemma handleGenerate_outcome_witness :
  images (handleGenerate (request_of 1024 1024 8)
            (RejectedError (lit "engine down"))
            {| images := [lit "old"]; lightboxIdx := Some 0;
               isGenerating := false; estimatedMs := 0; error := None |})
  = [lit "old"].
Proof.
  apply (proj2 (proj2 (proj2 (proj2
    (handleGenerate_outcome (request_of 1024 1024 8)
       (RejectedError (lit "engine down"))
       {| images := [lit "old"]; lightboxIdx := Some 0;
          isGenerating := false; estimatedMs := 0; error := None |}))))).
  discriminate.
Defined.

End EstimateMore.

(** ** The page as a whole: calls, gallery and lightbox *)

Section HomeInvariants.

Import JS Home.

Example browse_after_two_generations :
  option_map (fun r => (Page.images (fst r), Page.lightboxIdx (fst r),
                        List.length (snd r)))
    (run Page.initial
       [ Submit (GeneratorForm.setPrompt (lit "a cat") GeneratorForm.initial);
         Submit (GeneratorForm.setPrompt (lit "a dog") GeneratorForm.initial);
         Settle (Page.Fulfilled [lit "cat1"; lit "cat2"]);
         Submit (GeneratorForm.setPrompt (lit "a dog") GeneratorForm.initial);
         Settle (Page.Fulfilled [lit "dog1"]);
         ClickThumbnail 2;
         InLightbox (Lightbox.KeyDown (lit "ArrowRight"));
         InLightbox (Lightbox.KeyDown (lit "ArrowLeft"));
         InLightbox (Lightbox.KeyDown (lit "ArrowLeft")) ])
  = Some ([lit "dog1"; lit "cat1"; lit "cat2"], Some 0, 2%nat).
Proof. reflexivity. Qed.

Example settle_without_call : run Page.initial [Settle Page.RejectedOther] = None.
Proof. reflexivity. Qed.

Example thumbnail_of_empty_gallery : run Page.initial [ClickThumbnail 0] = None.
Proof. reflexivity. Qed.

(** The gallery has one button per image; the [n]-th one hands [n] to
    [onImageClick], and an empty gallery has none. *)
Lemma click_spec (images : list jsstring) (n : nat) (idx : Z) :
  Gallery.click images n = Some idx
  <-> (n < List.length images)%nat /\ idx = Z.of_nat n.
Proof.
  unfold Gallery.click, Gallery.buttons.
  destruct images as [|i images].
  - simpl. split; [discriminate | intros [H _]; lia].
  - rewrite nth_error_seq.
    destruct (Nat.ltb_spec n (List.length (i :: images))); simpl in *; split.
    + intros [= <-]. now split.
    + now intros [_ ->].
    + discriminate.
    + intros [H' _]. lia.
Qed.

Lemma effects_frame (effects : list Lightbox.Effect) (st : Page.State) :
  let st' := fold_left (fun s e => Lightbox.run e s) effects st in
  Page.images st' = Page.images st
  /\ Page.isGenerating st' = Page.isGenerating st
  /\ Page.estimatedMs st' = Page.estimatedMs st
  /\ Page.error st' = Page.error st
  /\ (Page.lightboxIdx st' = Page.lightboxIdx st
      \/ Page.lightboxIdx st' = None
      \/ exists idx, In (Lightbox.onNavigate idx) effects
                     /\ Page.lightboxIdx st' = Some idx).
Proof.
  cbv zeta. revert st.
  induction effects as [|e effects IH]; intros st; simpl.
  - repeat split. now left.
  - destruct (IH (Lightbox.run e st)) as [H1 [H2 [H3 [H4 H5]]]].
    rewrite H1, H2, H3, H4.
    repeat split; try (now destruct e).
    destruct H5 as [H5 | [H5 | [idx [Hin H5]]]].
    + rewrite H5. destruct e as [|idx]; simpl; [now right; left|].
      right; right. exists idx. split; [now left | reflexivity].
    + now right; left.
    + right; right. exists idx. split; [now right | exact H5].
Qed.

Lemma submit_frame (form : GeneratorForm.State) (st : Page.State) :
  Page.images (fst (Page.submit form st)) = Page.images st
  /\ Page.lightboxIdx (fst (Page.submit form st)) = Page.lightboxIdx st.
Proof.
  unfold Page.submit.
  now destruct (GeneratorForm.handleSubmit (Page.isGenerating st) form).
Qed.

Lemma step_lightbox_in_range (st st' : Page.State) (e : Event) calls :
  lightbox_in_range st -> step st e = Some (st', calls) ->
  lightbox_in_range st'.
Proof.
  unfold lightbox_in_range. intros Hr Hs. destruct e as [form|o|n|a]; simpl in Hs.
  - destruct (submit_frame form st) as [Hi Hl].
    destruct (Page.submit form st) as [st1 sent]. injection Hs as <- _.
    simpl in Hi, Hl. now rewrite Hi, Hl.
  - destruct (Page.isGenerating st); [|discriminate]. injection Hs as <- _.
    simpl. destruct (Page.lightboxIdx st) as [idx|]; [|exact I].
    destruct o; try exact Hr. rewrite length_app. lia.
  - destruct (Gallery.click (Page.images st) n) as [idx|] eqn:E;
      [|discriminate].
    injection Hs as <- _. simpl. apply click_spec in E as [H ->]. lia.
  - destruct (Page.lightboxIdx st) as [cur|] eqn:El; [|discriminate].
    destruct (Lightbox.dispatch (Page.images st) cur a) as [effects|] eqn:Ed;
      [|discriminate].
    injection Hs as <- _.
    destruct (effects_frame effects st) as [Hi [_ [_ [_ Hl]]]].
    rewrite Hi. destruct Hl as [Hl | [Hl | [idx [Hin Hl]]]]; rewrite Hl.
    + rewrite El. exact Hr.
    + exact I.
    + destruct (navigate_to_neighbour _ _ _ _ _ Ed Hin) as [[-> H] | [-> H]];
        unfold Lightbox.length_images in *; lia.
Qed.

Lemma step_pending (st st' : Page.State) (e : Event) calls :
  step st e = Some (st', calls) ->
  (List.length calls + (if Page.isGenerating st then 1 else 0)
   = settled [e] + (if Page.isGenerating st' then 1 else 0))%nat.
Proof.
  intros Hs. destruct e as [form|o|n|a]; simpl in Hs |- *.
  - unfold Page.submit in Hs.
    destruct (GeneratorForm.handleSubmit (Page.isGenerating st) form)
      as [values|] eqn:E.
    + injection Hs as <- <-. simpl.
      destruct (Page.isGenerating st); [|reflexivity].
      assert (N : GeneratorForm.handleSubmit true form = None)
        by (apply handleSubmit_None; now right).
      congruence.
    + now injection Hs as <- <-.
  - destruct (Page.isGenerating st); [|discriminate].
    now injection Hs as <- <-.
  - destruct (Gallery.click (Page.images st) n); [|discriminate].
    now injection Hs as <- <-.
  - destruct (Page.lightboxIdx st) as [cur|]; [|discriminate].
    destruct (Lightbox.dispatch (Page.images st) cur a) as [effects|];
      [|discriminate].
    injection Hs as <- <-.
    destruct (effects_frame effects st) as [_ [Hg _]]. now rewrite Hg.
Qed.

Lemma step_images (st st' : Page.State) (e : Event) calls :
  step st e = Some (st', calls) ->
  Page.images st' = delivered [e] ++ Page.images st.
Proof.
  intros Hs. destruct e as [form|o|n|a]; simpl in Hs |- *.
  - destruct (submit_frame form st) as [Hi _].
    destruct (Page.submit form st). now injection Hs as <- _.
  - destruct (Page.isGenerating st); [|discriminate].
    injection Hs as <- _. now destruct o.
  - destruct (Gallery.click (Page.images st) n); [|discriminate].
    now injection Hs as <- _.
  - destruct (Page.lightboxIdx st) as [cur|]; [|discriminate].
    destruct (Lightbox.dispatch (Page.images st) cur a) as [effects|];
      [|discriminate].
    injection Hs as <- _. apply effects_frame.
Qed.

(** X12. At most one [generate] call is pending at any time: after any run of the
    page, the calls started are the calls settled, plus one exactly when
    the page shows that it is generating. *)
Theorem one_generate_call_at_a_time (es : list Event) (st0 st : Page.State)
    calls :
  run st0 es = Some (st, calls) ->
  (List.length calls + (if Page.isGenerating st0 then 1 else 0)
   = settled es + (if Page.isGenerating st then 1 else 0))%nat.
Proof.
  revert st0 calls. induction es as [|e es IH]; intros st0 calls H; simpl in H.
  - now injection H as <- <-.
  - destruct (step st0 e) as [[st1 calls1]|] eqn:Es; [|discriminate].
    destruct (run st1 es) as [[st2 calls2]|] eqn:Er; [|discriminate].
    injection H as <- <-.
    pose proof (step_pending _ _ _ _ Es) as H1.
    pose proof (IH _ _ Er) as H2.
    rewrite length_app.
    assert (C : settled (e :: es) = (settled [e] + settled es)%nat)
      by (destruct e as [?|[]| |]; reflexivity).
    lia.
Qed.

(** X13. Whatever happens on the page, the gallery is what it was with the
    batches of the successful calls put in front, newest first: no image is
    ever removed, changed or moved with respect to the older ones. *)
Theorem gallery_accumulates (es : list Event) (st0 st : Page.State) calls :
  run st0 es = Some (st, calls) ->
  Page.images st = delivered es ++ Page.images st0.
Proof.
  revert st0 calls. induction es as [|e es IH]; intros st0 calls H; simpl in H.
  - now injection H as <- _.
  - destruct (step st0 e) as [[st1 calls1]|] eqn:Es; [|discriminate].
    destruct (run st1 es) as [[st2 calls2]|] eqn:Er; [|discriminate].
    injection H as <- _.
    rewrite (IH _ _ Er), (step_images _ _ _ _ Es), app_assoc.
    f_equal. destruct e as [?|[]| |]; simpl; now rewrite ?app_nil_r.
Qed.

(** X14. The lightbox index, once within the gallery, stays within it through
    submissions, settling calls (which lengthen the gallery), thumbnail
    clicks and everything done in the lightbox. *)
Theorem lightbox_index_stays_valid (es : list Event) (st0 st : Page.State)
    calls :
  lightbox_in_range st0 ->
  run st0 es = Some (st, calls) ->
  lightbox_in_range st.
Proof.
  revert st0 calls. induction es as [|e es IH]; intros st0 calls Hr H;
    simpl in H.
  - now injection H as <- _.
  - destruct (step st0 e) as [[st1 calls1]|] eqn:Es; [|discriminate].
    destruct (run st1 es) as [[st2 calls2]|] eqn:Er; [|discriminate].
    injection H as <- _.
    apply (IH _ _ (step_lightbox_in_range _ _ _ _ Hr Es) Er).
Qed.

(** X15. A thumbnail can be clicked exactly when the gallery has an image at its
    place, and the lightbox then opens on that image. *)
Theorem thumbnail_opens_its_image (st : Page.State) (n : nat) :
  (step st (ClickThumbnail n) <> None
   <-> (n < List.length (Page.images st))%nat)
  /\ (forall st' calls,
        step st (ClickThumbnail n) = Some (st', calls) ->
        calls = []
        /\ Page.lightboxIdx st' = Some (Z.of_nat n)
        /\ Page.images st' = Page.images st
        /\ exists img, nth_error (Page.images st') n = Some img).
Proof.
  simpl. split.
  - destruct (Gallery.click (Page.images st) n) as [idx|] eqn:E.
    + apply click_spec in E as [H _]. split; [now intros _ | discriminate].
    + split; [now intros H|]. intros H. exfalso.
      assert (C : Gallery.click (Page.images st) n = Some (Z.of_nat n))
        by now apply click_spec.
      congruence.
  - intros st' calls H.
    destruct (Gallery.click (Page.images st) n) as [idx|] eqn:E;
      [|discriminate].
    injection H as <- <-. apply click_spec in E as [Hn ->]. simpl.
    repeat split.
    destruct (nth_error (Page.images st) n) as [img|] eqn:En; [now exists img|].
    apply nth_error_None in En. lia.
Qed.

Lemma handleKeyDown_ArrowRight images idx :
  Lightbox.handleKeyDown images idx (lit "ArrowRight")
  = if Lightbox.hasNext images idx then [Lightbox.onNavigate (idx + 1)] else [].
Proof.
  unfold Lightbox.handleKeyDown.
  change (streq (lit "ArrowRight") (lit "Escape")) with false.
  change (streq (lit "ArrowRight") (lit "ArrowLeft")) with false.
  change (streq (lit "ArrowRight") (lit "ArrowRight")) with true.
  reflexivity.
Qed.

Lemma handleKeyDown_ArrowLeft images idx :
  Lightbox.handleKeyDown images idx (lit "ArrowLeft")
  = if Lightbox.hasPrev idx then [Lightbox.onNavigate (idx - 1)] else [].
Proof.
  unfold Lightbox.handleKeyDown.
  change (streq (lit "ArrowLeft") (lit "Escape")) with false.
  change (streq (lit "ArrowLeft") (lit "ArrowLeft")) with true.
  change (streq (lit "ArrowLeft") (lit "ArrowRight")) with false.
  simpl. now rewrite app_nil_r.
Qed.

(** X16. The arrow keys do what the arrow buttons do where the buttons exist and
    nothing where they do not; and going one way and then the other leads
    back to the same image. *)
Theorem arrows_round_trip (images : list jsstring) (idx : Z) :
  (forall effects,
      Lightbox.dispatch images idx Lightbox.ClickPrev = Some effects ->
      Lightbox.dispatch images idx (Lightbox.KeyDown (lit "ArrowLeft"))
      = Some effects)
  /\ (forall effects,
        Lightbox.dispatch images idx Lightbox.ClickNext = Some effects ->
        Lightbox.dispatch images idx (Lightbox.KeyDown (lit "ArrowRight"))
        = Some effects)
  /\ (Lightbox.dispatch images idx Lightbox.ClickPrev = None ->
      Lightbox.dispatch images idx (Lightbox.KeyDown (lit "ArrowLeft"))
      = Some [])
  /\ (Lightbox.dispatch images idx Lightbox.ClickNext = None ->
      Lightbox.dispatch images idx (Lightbox.KeyDown (lit "ArrowRight"))
      = Some [])
  /\ (0 < idx <= Lightbox.length_images images - 1 ->
      Lightbox.dispatch images idx (Lightbox.KeyDown (lit "ArrowLeft"))
      = Some [Lightbox.onNavigate (idx - 1)]
      /\ Lightbox.dispatch images (idx - 1)
           (Lightbox.KeyDown (lit "ArrowRight"))
         = Some [Lightbox.onNavigate idx])
  /\ (0 <= idx < Lightbox.length_images images - 1 ->
      Lightbox.dispatch images idx (Lightbox.KeyDown (lit "ArrowRight"))
      = Some [Lightbox.onNavigate (idx + 1)]
      /\ Lightbox.dispatch images (idx + 1)
           (Lightbox.KeyDown (lit "ArrowLeft"))
         = Some [Lightbox.onNavigate idx]).
Proof.
  simpl. rewrite !handleKeyDown_ArrowLeft, !handleKeyDown_ArrowRight.
  repeat split.
  - intros effects. now destruct (Lightbox.hasPrev idx).
  - intros effects. now destruct (Lightbox.hasNext images idx).
  - now destruct (Lightbox.hasPrev idx).
  - now destruct (Lightbox.hasNext images idx).
  - destruct H as [H _]. apply hasPrev_true in H. now rewrite H.
  - assert (N : Lightbox.hasNext images (idx - 1) = true)
      by (apply hasNext_true; lia).
    rewrite N. do 3 f_equal. lia.
  - destruct H as [_ H]. apply hasNext_true in H. now rewrite H.
  - assert (P : Lightbox.hasPrev (idx + 1) = true)
      by (apply hasPrev_true; lia).
    rewrite P. do 3 f_equal. lia.
Qed.

Lemma arrows_round_trip_witness :
  Lightbox.dispatch [lit "a"; lit "b"; lit "c"] 1
    (Lightbox.KeyDown (lit "ArrowLeft"))
  = Some [Lightbox.onNavigate (1 - 1)]
  /\ Lightbox.dispatch [lit "a"; lit "b"; lit "c"] (1 - 1)
       (Lightbox.KeyDown (lit "ArrowRight"))
     = Some [Lightbox.onNavigate 1].
Proof.
  apply (proj1 (proj2 (proj2 (proj2 (proj2
    (arrows_round_trip [lit "a"; lit "b"; lit "c"] 1)))))).
  vm_compute. split; [reflexivity | discriminate].
Defined.

End HomeInvariants.

Lemma one_generate_call_at_a_time_witness :
  (List.length [Page.request_of 1024 1024 8]
   + (if Page.isGenerating Page.initial then 1 else 0)
   = Home.settled
       [Home.Submit
          (GeneratorForm.setPrompt (JS.lit "a cat") GeneratorForm.initial)]
     + (if Page.isGenerating
             (fst (Page.handleGenerate_begin (Page.request_of 1024 1024 8)
                     Page.initial))
        then 1 else 0))%nat.
Proof.
  apply (one_generate_call_at_a_time
           [Home.Submit
              (GeneratorForm.setPrompt (JS.lit "a cat") GeneratorForm.initial)]
           Page.initial).
  reflexivity.
Defined.

Lemma gallery_accumulates_witness :
  Page.images
    (Page.handleGenerate_settle (Page.Fulfilled [JS.lit "new"])
       (fst (Page.handleGenerate_begin (Page.request_of 1024 1024 8)
               Page.initial)))
  = Home.delivered
      [Home.Submit
         (GeneratorForm.setPrompt (JS.lit "a cat") GeneratorForm.initial);
       Home.Settle (Page.Fulfilled [JS.lit "new"])]
    ++ Page.images Page.initial.
Proof.
  apply (gallery_accumulates
           [Home.Submit
              (GeneratorForm.setPrompt (JS.lit "a cat") GeneratorForm.initial);
            Home.Settle (Page.Fulfilled [JS.lit "new"])]
           Page.initial _ [Page.request_of 1024 1024 8]).
  reflexivity.
Defined.

Lemma lightbox_index_stays_valid_witness :
  Home.lightbox_in_range
    (Page.setLightboxIdx (Some 0)
       {| Page.images := [JS.lit "a"; JS.lit "b"]; Page.lightboxIdx := None;
          Page.isGenerating := false; Page.estimatedMs := 0;
          Page.error := None |}).
Proof.
  apply (lightbox_index_stays_valid [Home.ClickThumbnail 0]
           {| Page.images := [JS.lit "a"; JS.lit "b"];
              Page.lightboxIdx := None; Page.isGenerating := false;
              Page.estimatedMs := 0; Page.error := None |} _ []).
  - exact I.
  - reflexivity.
Defined.

Lemma thumbnail_opens_its_image_witness :
  Page.lightboxIdx
    (Page.setLightboxIdx (Some 1)
       {| Page.images := [JS.lit "a"; JS.lit "b"]; Page.lightboxIdx := None;
          Page.isGenerating := false; Page.estimatedMs := 0;
          Page.error := None |})
  = Some (Z.of_nat 1).
Proof.
  apply (proj2 (thumbnail_opens_its_image
           {| Page.images := [JS.lit "a"; JS.lit "b"];
              Page.lightboxIdx := None; Page.isGenerating := false;
              Page.estimatedMs := 0; Page.error := None |} 1%nat) _ []).
  reflexivity.
Defined.

(** ** Holding an arrow key down *)

Section Arrows.

Import JS Home.

Lemma step_ArrowRight (st : Page.State) (idx : Z) :
  Page.lightboxIdx st = Some idx ->
  0 <= idx < Z.of_nat (List.length (Page.images st)) ->
  exists st',
    step st (InLightbox (Lightbox.KeyDown (lit "ArrowRight"))) = Some (st', [])
    /\ Page.images st' = Page.images st
    /\ Page.lightboxIdx st'
       = Some (Z.min (idx + 1) (Z.of_nat (List.length (Page.images st)) - 1)).
Proof.
  intros Hl Hr. unfold step. rewrite Hl.
  unfold Lightbox.dispatch. rewrite handleKeyDown_ArrowRight.
  destruct (Lightbox.hasNext (Page.images st) idx) eqn:E.
  - apply hasNext_true in E. unfold Lightbox.length_images in E.
    eexists. split; [reflexivity|]. simpl. split; [reflexivity|].
    f_equal. lia.
  - assert (N : ~ idx < Lightbox.length_images (Page.images st) - 1).
    { intros C. apply hasNext_true in C. congruence. }
    unfold Lightbox.length_images in N.
    exists st. simpl. split; [reflexivity|]. split; [reflexivity|].
    rewrite Hl. f_equal. lia.
Qed.

Lemma step_ArrowLeft (st : Page.State) (idx : Z) :
  Page.lightboxIdx st = Some idx ->
  0 <= idx < Z.of_nat (List.length (Page.images st)) ->
  exists st',
    step st (InLightbox (Lightbox.KeyDown (lit "ArrowLeft"))) = Some (st', [])
    /\ Page.images st' = Page.images st
    /\ Page.lightboxIdx st' = Some (Z.max (idx - 1) 0).
Proof.
  intros Hl Hr. unfold step. rewrite Hl.
  unfold Lightbox.dispatch. rewrite handleKeyDown_ArrowLeft.
  destruct (Lightbox.hasPrev idx) eqn:E.
  - apply hasPrev_true in E.
    eexists. split; [reflexivity|]. simpl. split; [reflexivity|].
    f_equal. lia.
  - assert (N : ~ 0 < idx).
    { intros C. apply hasPrev_true in C. congruence. }
    exists st. simpl. split; [reflexivity|]. split; [reflexivity|].
    rewrite Hl. f_equal. lia.
Qed.

(** X17. Pressing ArrowRight [k] times moves [k] images on but stops at the last
    one, pressing ArrowLeft [k] times moves [k] images back but stops at the
    first: the lightbox does not wrap around, and the gallery is not
    touched. *)
Theorem arrows_saturate (k : nat) (st : Page.State) (idx : Z) :
  Page.lightboxIdx st = Some idx ->
  0 <= idx < Z.of_nat (List.length (Page.images st)) ->
  (exists st',
      run st (repeat (InLightbox (Lightbox.KeyDown (lit "ArrowRight"))) k)
      = Some (st', [])
      /\ Page.images st' = Page.images st
      /\ Page.lightboxIdx st'
         = Some (Z.min (idx + Z.of_nat k)
                   (Z.of_nat (List.length (Page.images st)) - 1)))
  /\ (exists st',
        run st (repeat (InLightbox (Lightbox.KeyDown (lit "ArrowLeft"))) k)
        = Some (st', [])
        /\ Page.images st' = Page.images st
        /\ Page.lightboxIdx st' = Some (Z.max (idx - Z.of_nat k) 0)).
Proof.
  revert st idx. induction k as [|k IH]; intros st idx Hl Hr.
  - split; exists st; simpl; (split; [reflexivity|]);
      (split; [reflexivity|]); rewrite Hl; f_equal; lia.
  - split.
    + destruct (step_ArrowRight st idx Hl Hr) as [st1 [Hs [Hi Hl1]]].
      assert (Hr1 : 0 <= Z.min (idx + 1)
                           (Z.of_nat (List.length (Page.images st)) - 1)
                    < Z.of_nat (List.length (Page.images st1)))
        by (rewrite Hi; lia).
      destruct (proj1 (IH st1 _ Hl1 Hr1)) as [st2 [Hrun [Hi2 Hl2]]].
      exists st2. cbn [repeat run]. rewrite Hs, Hrun.
      split; [reflexivity|]. split; [congruence|].
      rewrite Hl2, Hi. f_equal. lia.
    + destruct (step_ArrowLeft st idx Hl Hr) as [st1 [Hs [Hi Hl1]]].
      assert (Hr1 : 0 <= Z.max (idx - 1) 0
                    < Z.of_nat (List.length (Page.images st1)))
        by (rewrite Hi; lia).
      destruct (proj2 (IH st1 _ Hl1 Hr1)) as [st2 [Hrun [Hi2 Hl2]]].
      exists st2. cbn [repeat run]. rewrite Hs, Hrun.
      split; [reflexivity|]. split; [congruence|].
      rewrite Hl2. f_equal. lia.
Qed.

End Arrows.

Lemma arrows_saturate_witness :
  exists st',
    Home.run
      {| Page.images := [JS.lit "a"; JS.lit "b"; JS.lit "c"];
         Page.lightboxIdx := Some 1; Page.isGenerating := false;
         Page.estimatedMs := 0; Page.error := None |}
      (repeat (Home.InLightbox (Lightbox.KeyDown (JS.lit "ArrowRight"))) 5)
    = Some (st', [])
    /\ Page.images st' = [JS.lit "a"; JS.lit "b"; JS.lit "c"]
    /\ Page.lightboxIdx st'
       = Some (Z.min (1 + Z.of_nat 5) (Z.of_nat 3 - 1)).
Proof.
  apply (proj1 (arrows_saturate 5
           {| Page.images := [JS.lit "a"; JS.lit "b"; JS.lit "c"];
              Page.lightboxIdx := Some 1; Page.isGenerating := false;
              Page.estimatedMs := 0; Page.error := None |} 1
           eq_refl ltac:(simpl; lia))).
Defined.

(** ** generate.sh: how the arguments are read *)

Section ScriptArguments.

Import GenerateSh.
Local Open Scope string_scope.

Lemma assign_known (opt val : string) (v : Vars) :
  assign opt val v = None <-> known opt = false.
Proof.
  unfold assign, known.
  repeat match goal with
         | |- context [if ?b then _ else _] => destruct b
         end;
  simpl; split; (reflexivity || discriminate).
Qed.

Lemma parse_app (a b : list string) :
  Nat.even (List.length a) = true ->
  forall v,
    parse (a ++ b) v
    = match parse a v with
      | Done v1 => parse b v1
      | Unknown opt => Unknown opt
      | ShiftFails => ShiftFails
      end.
Proof.
  induction a as [| x | opt val rest IH] using list_pair_ind; intros He v.
  - reflexivity.
  - discriminate He.
  - simpl. destruct (assign opt val v) as [v1|]; [|reflexivity].
    apply IH. exact He.
Qed.

Lemma parse_parity (args : list string) :
  forall v,
    match parse args v with
    | Done _ => Nat.even (List.length args) = true
    | ShiftFails => Nat.even (List.length args) = false
    | Unknown _ => True
    end.
Proof.
  induction args as [| x | opt val rest IH] using list_pair_ind; intros v.
  - reflexivity.
  - simpl. now destruct (assign x EmptyString v).
  - simpl. destruct (assign opt val v) as [v1|]; [apply IH | exact I].
Qed.

(** X18. The script runs sd-cli only on an even number of words.  It never
    leaves its loop exactly when the words are complete option and value
    pairs followed by one more option, a known one, without its value. *)
Theorem script_hangs_on_dangling_option (dir : string) (args : list string) :
  (forall cmd, main dir args = Run cmd -> Nat.even (List.length args) = true)
  /\ (main dir args = Loops
      <-> exists pairs opt v,
            args = (pairs ++ [opt])%list
            /\ parse pairs defaults = Done v /\ known opt = true).
Proof.
  split.
  - intros cmd H. destruct (main_Run _ _ _ H) as [v [Hp _]].
    pose proof (parse_parity args defaults) as P. now rewrite Hp in P.
  - unfold main. split.
    + intros H.
      assert (Hs : parse args defaults = ShiftFails).
      { destruct (parse args defaults); try discriminate; [|reflexivity].
        now destruct (nonempty (PROMPT v)). }
      clear H. revert Hs. generalize defaults.
      induction args as [| x | opt val rest IH] using list_pair_ind;
        intros v0 Hs.
      * discriminate Hs.
      * simpl in Hs. destruct (assign x EmptyString v0) eqn:E; [|discriminate].
        exists [], x. eexists. repeat split.
        destruct (known x) eqn:K; [reflexivity|].
        apply (assign_known x EmptyString v0) in K. congruence.
      * simpl in Hs. destruct (assign opt val v0) as [v1|] eqn:E;
          [|discriminate].
        destruct (IH v1 Hs) as [pairs [o [v [-> [Hp K]]]]].
        exists (opt :: val :: pairs)%list, o, v.
        repeat split; [|exact K]. simpl. now rewrite E.
    + intros [pairs [opt [v [-> [Hp K]]]]].
      pose proof (parse_parity pairs defaults) as P. rewrite Hp in P.
      rewrite (parse_app pairs [opt] P), Hp. simpl.
      destruct (assign opt EmptyString v) eqn:E; [reflexivity|].
      apply assign_known in E. congruence.
Qed.

Lemma script_hangs_on_dangling_option_witness :
  main "/opt/Z-Image" ["-p"; "a cat"; "-W"] = Loops.
Proof.
  apply (proj2 (proj2 (script_hangs_on_dangling_option "/opt/Z-Image"
           ["-p"; "a cat"; "-W"]))).
  exists ["-p"; "a cat"], "-W". eexists.
  split; [reflexivity|]. split; reflexivity.
Defined.

(** X19. A word in option position that is none of the nine options stops the
    script with status 1 and the line "Unknown option: <word>", whatever
    follows it, and nothing is run. *)
Theorem script_rejects_unknown_option
    (dir : string) (pairs rest : list string) (opt : string) (v : Vars) :
  parse pairs defaults = Done v ->
  known opt = false ->
  main dir (pairs ++ opt :: rest)
  = Exit 1 [String.append "Unknown option: " opt].
Proof.
  intros Hp K. unfold main.
  pose proof (parse_parity pairs defaults) as P. rewrite Hp in P.
  rewrite (parse_app pairs (opt :: rest) P), Hp. simpl.
  apply (assign_known opt (List.hd EmptyString rest) v) in K.
  now rewrite K.
Qed.

Lemma script_rejects_unknown_option_witness :
  main "/opt/Z-Image" (["-p"; "a cat"] ++ "--cfg-scale" :: ["7.5"])
  = Exit 1 [String.append "Unknown option: " "--cfg-scale"].
Proof.
  apply (script_rejects_unknown_option "/opt/Z-Image" ["-p"; "a cat"]
           ["7.5"] "--cfg-scale"
           (Build_Vars "a cat" EmptyString EmptyString "0.75" "output.png"
              "1024" "1024" "8" "-1"));
    reflexivity.
Defined.

(** X20. An option given again replaces the value given before: after any
    complete pairs, a further pair sets its variable to its value, and that
    value is what the command line carries, word for word, in the place of
    that option. *)
Theorem later_option_wins (dir : string) (pairs : list string) (v : Vars)
    (val : string) :
  parse pairs defaults = Done v ->
  let line := fun P N I St O W H S Sd : string =>
    Run ([ String.append dir "/stable-diffusion.cpp/build/bin/sd-cli";
           "--diffusion-model";
           String.append dir "/models/z_image_turbo-Q6_K.gguf";
           "--vae";
           String.append dir "/models/vae/split_files/vae/ae.safetensors";
           "--llm";
           String.append dir
             "/models/text_encoder/Qwen3-4B-Instruct-2507-Q4_K_M.gguf";
           "-p"; P; "--cfg-scale"; "1.0"; "--steps"; S; "--seed"; Sd;
           "--diffusion-fa"; "--offload-to-cpu"; "-H"; H; "-W"; W; "-o"; O ]
         ++ (if nonempty N then ["-n"; N] else [])
         ++ (if nonempty I then ["--init-img"; I; "--strength"; St] else []))
  in
  (exists v', parse (pairs ++ ["-W"; val]) defaults = Done v'
              /\ WIDTH v' = val)
  /\ (exists v', parse (pairs ++ ["-H"; val]) defaults = Done v'
                 /\ HEIGHT v' = val)
  /\ (exists v', parse (pairs ++ ["-S"; val]) defaults = Done v'
                 /\ STEPS v' = val)
  /\ (exists v', parse (pairs ++ ["--seed"; val]) defaults = Done v'
                 /\ SEED v' = val)
  /\ (exists v', parse (pairs ++ ["-p"; val]) defaults = Done v'
                 /\ PROMPT v' = val)
  /\ (exists v', parse (pairs ++ ["-n"; val]) defaults = Done v'
                 /\ NEGATIVE v' = val)
  /\ (exists v', parse (pairs ++ ["-i"; val]) defaults = Done v'
                 /\ INIT_IMG v' = val)
  /\ (exists v', parse (pairs ++ ["-s"; val]) defaults = Done v'
                 /\ STRENGTH v' = val)
  /\ (exists v', parse (pairs ++ ["-o"; val]) defaults = Done v'
                 /\ OUTPUT v' = val)
  /\ (PROMPT v <> EmptyString ->
      main dir (pairs ++ ["-W"; val]) = line (PROMPT v) (NEGATIVE v) (INIT_IMG v) (STRENGTH v) (OUTPUT v) (val) (HEIGHT v) (STEPS v) (SEED v)
      /\ main dir (pairs ++ ["-H"; val]) = line (PROMPT v) (NEGATIVE v) (INIT_IMG v) (STRENGTH v) (OUTPUT v) (WIDTH v) (val) (STEPS v) (SEED v)
      /\ main dir (pairs ++ ["-S"; val]) = line (PROMPT v) (NEGATIVE v) (INIT_IMG v) (STRENGTH v) (OUTPUT v) (WIDTH v) (HEIGHT v) (val) (SEED v)
      /\ main dir (pairs ++ ["--seed"; val]) = line (PROMPT v) (NEGATIVE v) (INIT_IMG v) (STRENGTH v) (OUTPUT v) (WIDTH v) (HEIGHT v) (STEPS v) (val)
      /\ main dir (pairs ++ ["-n"; val]) = line (PROMPT v) (val) (INIT_IMG v) (STRENGTH v) (OUTPUT v) (WIDTH v) (HEIGHT v) (STEPS v) (SEED v)
      /\ main dir (pairs ++ ["-i"; val]) = line (PROMPT v) (NEGATIVE v) (val) (STRENGTH v) (OUTPUT v) (WIDTH v) (HEIGHT v) (STEPS v) (SEED v)
      /\ main dir (pairs ++ ["-s"; val]) = line (PROMPT v) (NEGATIVE v) (INIT_IMG v) (val) (OUTPUT v) (WIDTH v) (HEIGHT v) (STEPS v) (SEED v)
      /\ main dir (pairs ++ ["-o"; val]) = line (PROMPT v) (NEGATIVE v) (INIT_IMG v) (STRENGTH v) (val) (WIDTH v) (HEIGHT v) (STEPS v) (SEED v))
  /\ (val <> EmptyString ->
      main dir (pairs ++ ["-p"; val]) = line (val) (NEGATIVE v) (INIT_IMG v) (STRENGTH v) (OUTPUT v) (WIDTH v) (HEIGHT v) (STEPS v) (SEED v)).
Proof.
  intros Hp line.
  pose proof (parse_parity pairs defaults) as P. rewrite Hp in P.
  do 9 (split; [eexists; rewrite (parse_app pairs _ P), Hp;
                split; reflexivity|]).
  split.
  - intros Hn. apply nonempty_true in Hn.
    repeat split; unfold main; rewrite (parse_app pairs _ P), Hp;
      cbn [parse assign String.eqb Ascii.eqb Bool.eqb List.hd PROMPT];
      rewrite Hn; reflexivity.
  - intros Hn. apply nonempty_true in Hn.
    unfold main. rewrite (parse_app pairs _ P), Hp.
    cbn [parse assign String.eqb Ascii.eqb Bool.eqb List.hd PROMPT].
    rewrite Hn. reflexivity.
Qed.

Lemma later_option_wins_witness :
  exists v',
    parse (["-p"; "a cat"; "-S"; "4"] ++ ["-S"; "20"]) defaults = Done v'
    /\ STEPS v' = "20".
Proof.
  apply (proj1 (proj2 (proj2
    (later_option_wins "/opt/Z-Image" ["-p"; "a cat"; "-S"; "4"]
       (Build_Vars "a cat" EmptyString EmptyString "0.75" "output.png"
          "1024" "1024" "4" "-1")
       "20" eq_refl)))).
Defined.

Lemma assign_same (opt val : string) (v w : Vars) :
  same_but_STRENGTH v w ->
  match assign opt val v, assign opt val w with
  | Some v1, Some w1 => same_but_STRENGTH v1 w1
  | None, None => True
  | _, _ => False
  end.
Proof.
  unfold same_but_STRENGTH, with_STRENGTH. destruct v, w; simpl.
  intros [= -> -> -> -> -> -> -> ->]. unfold assign.
  repeat match goal with
         | |- context [if ?b then _ else _] => destruct b
         end;
  simpl; (reflexivity || exact I).
Qed.

Lemma parse_same (args : list string) :
  forall v w,
    same_but_STRENGTH v w ->
    match parse args v, parse args w with
    | Done v1, Done w1 => same_but_STRENGTH v1 w1
    | Unknown o1, Unknown o2 => o1 = o2
    | ShiftFails, ShiftFails => True
    | _, _ => False
    end.
Proof.
  induction args as [| x | opt val rest IH] using list_pair_ind;
    intros v w S.
  - exact S.
  - simpl. pose proof (assign_same x EmptyString v w S) as A.
    destruct (assign x EmptyString v), (assign x EmptyString w);
      (exact I || reflexivity || contradiction).
  - simpl. pose proof (assign_same opt val v w S) as A.
    destruct (assign opt val v) as [v1|], (assign opt val w) as [w1|];
      try contradiction; [apply IH; exact A | reflexivity].
Qed.

Lemma CMD_same (dir : string) (v w : Vars) :
  same_but_STRENGTH v w -> INIT_IMG v = EmptyString ->
  PROMPT v = PROMPT w /\ CMD dir v = CMD dir w.
Proof.
  unfold same_but_STRENGTH, with_STRENGTH. destruct v, w; simpl.
  intros [= -> -> -> -> -> -> -> ->] ->. split; reflexivity.
Qed.

(** X21. The strength matters only together with an input image: when no
    (non-empty) input image is given, a [-s] option anywhere among the
    pairs does not change what the script does; when one is given, the
    command line ends with the image and the strength. *)
Theorem strength_needs_input_image
    (dir : string) (pairs rest : list string) (x : string) (va v : Vars) :
  parse pairs defaults = Done va ->
  parse (pairs ++ rest) defaults = Done v ->
  (INIT_IMG v = EmptyString ->
   main dir (pairs ++ "-s" :: x :: rest) = main dir (pairs ++ rest))
  /\ (INIT_IMG v <> EmptyString -> PROMPT v <> EmptyString ->
      exists front,
        main dir (pairs ++ rest)
        = Run (front ++ ["--init-img"; INIT_IMG v; "--strength"; STRENGTH v])).
Proof.
  intros Ha Hv.
  pose proof (parse_parity pairs defaults) as P. rewrite Ha in P.
  split.
  - intros Hi. unfold main.
    rewrite (parse_app pairs ("-s" :: x :: rest) P), Ha.
    rewrite (parse_app pairs rest P), Ha in Hv |- *.
    cbv beta iota in Hv |- *.
    change (parse ("-s" :: x :: rest) va)
      with (parse rest (with_STRENGTH x va)).
    assert (S : same_but_STRENGTH va (with_STRENGTH x va)) by reflexivity.
    pose proof (parse_same rest va (with_STRENGTH x va) S) as R.
    rewrite Hv. rewrite Hv in R.
    destruct (parse rest (with_STRENGTH x va)) as [w| |]; try contradiction.
    destruct (CMD_same dir v w R Hi) as [Ep Ec]. now rewrite Ep, Ec.
  - intros Hi Hp. unfold main. rewrite Hv.
    apply nonempty_true in Hp. apply nonempty_true in Hi. rewrite Hp.
    unfold CMD. rewrite Hi. eexists. rewrite app_assoc. reflexivity.
Qed.

Lemma strength_needs_input_image_witness :
  main "/opt/Z-Image" (["-p"; "a cat"] ++ "-s" :: "0.3" :: ["-W"; "512"])
  = main "/opt/Z-Image" (["-p"; "a cat"] ++ ["-W"; "512"]).
Proof.
  apply (proj1 (strength_needs_input_image "/opt/Z-Image" ["-p"; "a cat"]
           ["-W"; "512"] "0.3"
           (Build_Vars "a cat" EmptyString EmptyString "0.75" "output.png"
              "1024" "1024" "8" "-1")
           (Build_Vars "a cat" EmptyString EmptyString "0.75" "output.png"
              "512" "1024" "8" "-1")
           eq_refl eq_refl)).
  reflexivity.
Defined.

End ScriptArguments.

(** ** The translator's checks *)

Section TranslatorChecks.

Import Translator.

Lemma dimension_ok_iff (d : Z) :
  dimension_ok d = true <-> (64 | d) /\ 64 <= d <= 2048.
Proof.
  unfold dimension_ok.
  rewrite !andb_true_iff, Z.eqb_eq, !Z.leb_le, Z.mod_divide by lia.
  tauto.
Qed.

Lemma translate_rejects (cfg : Config) (req : GenerationRequest)
    (v : Violation) :
  In v (violations req) ->
  exists vs, translate cfg req = inl (ValidationError vs)
             /\ vs = violations req /\ In v vs.
Proof.
  intros H. unfold translate.
  destruct (violations req) as [|v0 vs] eqn:E; [contradiction|].
  exists (v0 :: vs). repeat split. exact H.
Qed.

Lemma translate_accepts (cfg : Config) (req : GenerationRequest) w :
  translate cfg req = inr w -> violations req = [] /\ w = wire cfg req.
Proof.
  unfold translate. destruct (violations req); [|discriminate].
  intros [= <-]. now split.
Qed.

Lemma handle_rejected {Reply : Type} (cfg : Config) (health : Health.Status)
    (engine : EngineWireRequest -> Reply) (req : GenerationRequest) e :
  translate cfg req = inl e ->
  snd (handle cfg health engine req) = []
  /\ (health <> Health.down -> fst (handle cfg health engine req) = inl e).
Proof.
  intros H. unfold handle. rewrite H.
  destruct health; simpl; split; try reflexivity; intros C; now destruct C.
Qed.

Lemma In_BadWidth (req : GenerationRequest) :
  In BadWidth (violations req) <-> dimension_ok (width req) = false.
Proof.
  unfold violations.
  destruct (dimension_ok (width req)), (dimension_ok (height req)),
    (image req), (mask req), (needs_image (mode req)),
    (needs_mask (mode req)), (prompt req); simpl;
    destruct (Qle_bool 0 (strength req) && Qle_bool (strength req) 1);
    simpl; intuition discriminate.
Qed.

Lemma In_BadHeight (req : GenerationRequest) :
  In BadHeight (violations req) <-> dimension_ok (height req) = false.
Proof.
  unfold violations.
  destruct (dimension_ok (width req)), (dimension_ok (height req)),
    (image req), (mask req), (needs_image (mode req)),
    (needs_mask (mode req)), (prompt req); simpl;
    destruct (Qle_bool 0 (strength req) && Qle_bool (strength req) 1);
    simpl; intuition discriminate.
Qed.

Lemma In_MissingMask (req : GenerationRequest) :
  In MissingMask (violations req)
  <-> mode req = inpaint /\ mask req = None.
Proof.
  unfold violations.
  destruct (dimension_ok (width req)), (dimension_ok (height req)),
    (image req), (mask req), (mode req), (prompt req); simpl;
    destruct (Qle_bool 0 (strength req) && Qle_bool (strength req) 1);
    simpl; intuition (discriminate || congruence).
Qed.

(** C2. A request whose width or height is not a multiple of 64 or lies
    outside [64, 2048] is rejected by the translator with ValidationError,
    naming the size at fault; the gateway sends nothing to the engine for
    it, and answers with that error whenever the engine is not down.
    Nothing is adjusted: only a request with a valid width and a valid
    height is translated, and its wire request carries the same width and
    height. *)
Theorem invalid_dimensions_are_rejected (cfg : Config)
    (req : GenerationRequest) :
  (~ (64 | width req) \/ width req < 64 \/ 2048 < width req
   \/ ~ (64 | height req) \/ height req < 64 \/ 2048 < height req ->
   exists vs,
     translate cfg req = inl (ValidationError vs)
     /\ (In BadWidth vs \/ In BadHeight vs)
     /\ forall (Reply : Type) (health : Health.Status)
           (engine : EngineWireRequest -> Reply),
          snd (handle cfg health engine req) = []
          /\ (health <> Health.down ->
              fst (handle cfg health engine req)
              = inl (ValidationError vs)))
  /\ (forall w,
        translate cfg req = inr w ->
        ((64 | width req) /\ 64 <= width req <= 2048)
        /\ ((64 | height req) /\ 64 <= height req <= 2048)
        /\ wire_width w = width req /\ wire_height w = height req).
Proof.
  split.
  - intros H.
    assert (B : In BadWidth (violations req) \/ In BadHeight (violations req)).
    { rewrite In_BadWidth, In_BadHeight.
      destruct (dimension_ok (width req)) eqn:Ew; [|now left].
      destruct (dimension_ok (height req)) eqn:Eh; [|now right].
      apply dimension_ok_iff in Ew. apply dimension_ok_iff in Eh.
      exfalso. intuition lia. }
    assert (R : exists vs, translate cfg req = inl (ValidationError vs)
                           /\ vs = violations req).
    { destruct B as [B | B];
        destruct (translate_rejects cfg req _ B) as [vs [T [E _]]];
        exists vs; now split. }
    destruct R as [vs [T ->]]. exists (violations req).
    split; [exact T|]. split; [exact B|].
    intros Reply health engine. now apply handle_rejected.
  - intros w T. destruct (translate_accepts _ _ _ T) as [V ->].
    assert (Ew : dimension_ok (width req) = true).
    { destruct (dimension_ok (width req)) eqn:E; [reflexivity|].
      apply In_BadWidth in E. rewrite V in E. contradiction. }
    assert (Eh : dimension_ok (height req) = true).
    { destruct (dimension_ok (height req)) eqn:E; [reflexivity|].
      apply In_BadHeight in E. rewrite V in E. contradiction. }
    apply dimension_ok_iff in Ew. apply dimension_ok_iff in Eh.
    repeat split; tauto.
Qed.

Lemma invalid_dimensions_are_rejected_witness :
  exists vs,
    translate (Build_Config 8 1 "euler")
      (Build_GenerationRequest text_to_image "a cat" None 100 1024 None None
         (-1) 1 None None (-1) (3 # 4) None None)
    = inl (ValidationError vs)
    /\ (In BadWidth vs \/ In BadHeight vs)
    /\ forall (Reply : Type) (health : Health.Status)
          (engine : EngineWireRequest -> Reply),
         snd (handle (Build_Config 8 1 "euler") health engine
                (Build_GenerationRequest text_to_image "a cat" None 100 1024
                   None None (-1) 1 None None (-1) (3 # 4) None None)) = []
         /\ (health <> Health.down ->
             fst (handle (Build_Config 8 1 "euler") health engine
                    (Build_GenerationRequest text_to_image "a cat" None 100
                       1024 None None (-1) 1 None None (-1) (3 # 4) None
                       None))
             = inl (ValidationError vs)).
Proof.
  apply (proj1 (invalid_dimensions_are_rejected (Build_Config 8 1 "euler")
    (Build_GenerationRequest text_to_image "a cat" None 100 1024 None None
       (-1) 1 None None (-1) (3 # 4) None None))).
  left. simpl. intros [k Hk]. lia.
Defined.

(** C3. A request with mode inpaint and no mask is rejected by the
    translator with ValidationError for the missing mask, whatever its
    other fields are, and the gateway sends nothing to the engine for it;
    the mask is required in inpaint mode and in no other. *)
Theorem inpaint_without_mask_is_rejected (cfg : Config)
    (req : GenerationRequest) :
  (mode req = inpaint -> mask req = None ->
   exists vs,
     translate cfg req = inl (ValidationError vs)
     /\ In MissingMask vs
     /\ forall (Reply : Type) (health : Health.Status)
           (engine : EngineWireRequest -> Reply),
          snd (handle cfg health engine req) = []
          /\ (health <> Health.down ->
              fst (handle cfg health engine req)
              = inl (ValidationError vs)))
  /\ (In MissingMask (violations req)
      <-> mode req = inpaint /\ mask req = None).
Proof.
  split; [|apply In_MissingMask].
  intros Hm Hk.
  assert (B : In MissingMask (violations req)) by now apply In_MissingMask.
  destruct (translate_rejects cfg req _ B) as [vs [T [_ Hin]]].
  exists vs. split; [exact T|]. split; [exact Hin|].
  intros Reply health engine. now apply handle_rejected.
Qed.

Lemma inpaint_without_mask_is_rejected_witness :
  exists vs,
    translate (Build_Config 8 1 "euler")
      (Build_GenerationRequest inpaint "a cat" None 1024 1024 None None
         (-1) 1 None None (-1) (3 # 4) (Some [137%N; 80%N]) None)
    = inl (ValidationError vs)
    /\ In MissingMask vs
    /\ forall (Reply : Type) (health : Health.Status)
          (engine : EngineWireRequest -> Reply),
         snd (handle (Build_Config 8 1 "euler") health engine
                (Build_GenerationRequest inpaint "a cat" None 1024 1024
                   None None (-1) 1 None None (-1) (3 # 4)
                   (Some [137%N; 80%N]) None)) = []
         /\ (health <> Health.down ->
             fst (handle (Build_Config 8 1 "euler") health engine
                    (Build_GenerationRequest inpaint "a cat" None 1024 1024
                       None None (-1) 1 None None (-1) (3 # 4)
                       (Some [137%N; 80%N]) None))
             = inl (ValidationError vs)).
Proof.
  apply (proj1 (inpaint_without_mask_is_rejected (Build_Config 8 1 "euler")
    (Build_GenerationRequest inpaint "a cat" None 1024 1024 None None
       (-1) 1 None None (-1) (3 # 4) (Some [137%N; 80%N]) None)));
    reflexivity.
Defined.

Example translate_valid_request :
  translate (Build_Config 8 1 "euler")
    (Build_GenerationRequest text_to_image "a cat" None 1024 1024 None None
       (-1) 1 None None (-1) (3 # 4) None None)
  = inr (Build_EngineWireRequest "a cat" EmptyString 1024 1024 8 1 (-1) 1
           "euler" EmptyString (-1) None None None).
Proof. reflexivity. Qed.

Example translate_strength_out_of_range :
  translate (Build_Config 8 1 "euler")
    (Build_GenerationRequest image_to_image "a cat" None 1024 1024 None None
       (-1) 1 None None (-1) (3 # 2) (Some [137%N]) None)
  = inl (ValidationError [BadStrength]).
Proof. reflexivity. Qed.

End TranslatorChecks.

(** ** Defaults and the empty prompt, on both front ends *)

Section FrontEnds.

Import JS GeneratorForm.
Local Open Scope string_scope.

Lemma main_Run_line (dir : string) (args cmd : list string) :
  GenerateSh.main dir args = GenerateSh.Run cmd ->
  exists v,
    GenerateSh.parse args GenerateSh.defaults = GenerateSh.Done v
    /\ GenerateSh.PROMPT v <> EmptyString
    /\ cmd
       = ([ String.append dir "/stable-diffusion.cpp/build/bin/sd-cli";
           "--diffusion-model";
           String.append dir "/models/z_image_turbo-Q6_K.gguf";
           "--vae";
           String.append dir "/models/vae/split_files/vae/ae.safetensors";
           "--llm";
           String.append dir
             "/models/text_encoder/Qwen3-4B-Instruct-2507-Q4_K_M.gguf";
           "-p"; GenerateSh.PROMPT v; "--cfg-scale"; "1.0";
           "--steps"; GenerateSh.STEPS v; "--seed"; GenerateSh.SEED v;
           "--diffusion-fa"; "--offload-to-cpu";
           "-H"; GenerateSh.HEIGHT v; "-W"; GenerateSh.WIDTH v;
           "-o"; GenerateSh.OUTPUT v ]
         ++ (if GenerateSh.nonempty (GenerateSh.NEGATIVE v)
             then ["-n"; GenerateSh.NEGATIVE v] else [])
         ++ (if GenerateSh.nonempty (GenerateSh.INIT_IMG v)
             then ["--init-img"; GenerateSh.INIT_IMG v;
                   "--strength"; GenerateSh.STRENGTH v] else []))%list.
Proof.
  intros H. destruct (main_Run _ _ _ H) as [v [Hp [Hn ->]]].
  exists v. repeat split; assumption.
Qed.

(** C6, as stated, fails on the sampler.  Called with a prompt and nothing
    else, generate.sh runs sd-cli with its own steps, seed, size and
    cfg-scale but names no sampler: no "euler" is substituted, the sampler
    is left to the engine. *)
Lemma default_sampler_is_not_euler :
  exists cmd,
    GenerateSh.main "/opt/Z-Image" ["-p"; "a cat"] = GenerateSh.Run cmd
    /\ cmd
       = [ "/opt/Z-Image/stable-diffusion.cpp/build/bin/sd-cli";
           "--diffusion-model"; "/opt/Z-Image/models/z_image_turbo-Q6_K.gguf";
           "--vae"; "/opt/Z-Image/models/vae/split_files/vae/ae.safetensors";
           "--llm";
           "/opt/Z-Image/models/text_encoder/Qwen3-4B-Instruct-2507-Q4_K_M.gguf";
           "-p"; "a cat"; "--cfg-scale"; "1.0"; "--steps"; "8";
           "--seed"; "-1"; "--diffusion-fa"; "--offload-to-cpu";
           "-H"; "1024"; "-W"; "1024"; "-o"; "output.png" ]
    /\ ~ In "euler" cmd
    /\ ~ In "--sampling-method" cmd.
Proof.
  eexists. split; [reflexivity|]. split; [reflexivity|].
  split; simpl; intuition discriminate.
Qed.

(** C6, amended.  A field left unset gets the front end's own default
    before forwarding, except the sampler.  generate.sh calls sd-cli with
    exactly this command line: the three model paths, the prompt,
    cfg-scale 1.0 always, steps, seed, the two flags, height, width and
    output, then the negative prompt if one is given and the input image
    with the strength if one is given; no sampler option is among them;
    steps 8, seed -1, width and height 1024 and strength 0.75 stand for the
    options not given.  In the web form a field the user leaves alone is
    handed to [generate] with the value the form starts it with: width and
    height 1024, steps 8, cfg_scale 1.0, seed -1, strength 0.75,
    batch_size 1, clip_skip -1 and the empty string for sampler_name and
    scheduler. *)
Theorem untouched_fields_keep_defaults :
  let line := fun dir P N I St O W H S Sd : string =>
    ([ String.append dir "/stable-diffusion.cpp/build/bin/sd-cli";
      "--diffusion-model";
      String.append dir "/models/z_image_turbo-Q6_K.gguf";
      "--vae";
      String.append dir "/models/vae/split_files/vae/ae.safetensors";
      "--llm";
      String.append dir
        "/models/text_encoder/Qwen3-4B-Instruct-2507-Q4_K_M.gguf";
      "-p"; P; "--cfg-scale"; "1.0"; "--steps"; S; "--seed"; Sd;
      "--diffusion-fa"; "--offload-to-cpu"; "-H"; H; "-W"; W; "-o"; O ]
    ++ (if GenerateSh.nonempty N then ["-n"; N] else [])
    ++ (if GenerateSh.nonempty I
        then ["--init-img"; I; "--strength"; St] else []))%list
  in
  (default_of FWidth = Num 1024 /\ default_of FHeight = Num 1024
   /\ default_of FSteps = Num 8 /\ default_of FCfgScale = Num 1
   /\ default_of FSeed = Num (-1) /\ default_of FStrength = Num (3 # 4)
   /\ default_of FSamplerName = Str [] /\ default_of FScheduler = Str []
   /\ default_of FBatchSize = Num 1 /\ default_of FClipSkip = Num (-1))
  /\ (forall ASPECT_RATIOS (es : list Event) (f : Field) (g : bool) req,
        forallb (fun e => negb (sets e f)) es = true ->
        handleSubmit g (after ASPECT_RATIOS es initial) = Some req ->
        field_of f req = default_of f)
  /\ (forall dir args cmd,
        GenerateSh.main dir args = GenerateSh.Run cmd ->
        exists v,
          GenerateSh.parse args GenerateSh.defaults = GenerateSh.Done v
          /\ cmd = line dir (GenerateSh.PROMPT v) (GenerateSh.NEGATIVE v)
                     (GenerateSh.INIT_IMG v) (GenerateSh.STRENGTH v)
                     (GenerateSh.OUTPUT v) (GenerateSh.WIDTH v)
                     (GenerateSh.HEIGHT v) (GenerateSh.STEPS v)
                     (GenerateSh.SEED v)
          /\ (~ In "-S" args -> GenerateSh.STEPS v = "8")
          /\ (~ In "--seed" args -> GenerateSh.SEED v = "-1")
          /\ (~ In "-W" args -> GenerateSh.WIDTH v = "1024")
          /\ (~ In "-H" args -> GenerateSh.HEIGHT v = "1024")
          /\ (~ In "-s" args -> GenerateSh.STRENGTH v = "0.75")).
Proof.
  intros line.
  split; [repeat split|]. split.
  - intros ratios es f g req Hes Hs.
    rewrite (handleSubmit_field _ _ _ f Hs), after_keeps by exact Hes.
    apply cell_of_initial.
  - intros dir args cmd H.
    destruct (main_Run_line _ _ _ H) as [v [Hp [_ ->]]].
    exists v. split; [exact Hp|]. split; [reflexivity|].
    repeat split; intros Hn.
    + apply (parse_keeps_STEPS _ _ _ Hn Hp).
    + apply (parse_keeps_SEED _ _ _ Hn Hp).
    + apply (parse_keeps_WIDTH _ _ _ Hn Hp).
    + apply (parse_keeps_HEIGHT _ _ _ Hn Hp).
    + apply (parse_keeps_STRENGTH _ _ _ Hn Hp).
Qed.

Lemma untouched_fields_keep_defaults_witness :
  field_of FSamplerName
    (Types.Build_GenerationValues Types.img2img (lit "a cat") []
       1024 1024 20 1 (-1) 1 [] [] (-1) (3 # 4) None None)
  = default_of FSamplerName.
Proof.
  apply (proj1 (proj2 untouched_fields_keep_defaults) []
           [ChangePrompt (lit "a cat"); ClickMode Types.img2img;
            ChangeSteps 20]
           FSamplerName false);
    reflexivity.
Defined.

(** C7, as stated, fails for generate.sh.  A prompt made of one space is
    not empty for the script, which runs sd-cli with it. *)
Lemma blank_prompt_reaches_sd_cli :
  GenerateSh.blank " " = true
  /\ exists cmd,
       GenerateSh.main "/opt/Z-Image" ["-p"; " "] = GenerateSh.Run cmd
       /\ nth_error cmd 7 = Some "-p"
       /\ nth_error cmd 8 = Some " ".
Proof. split; [reflexivity|]. eexists. repeat split. Qed.

(** C7, amended.  A request whose prompt is empty never reaches the engine.
    The web form drops a submission whose prompt is empty or white space
    only: [onGenerate] is not called and the page stays as it is.
    generate.sh never runs sd-cli with an empty prompt: what it runs
    carries a prompt that is not empty, right after -p; when its arguments
    are complete pairs of known options and the prompt is empty, it prints
    the two lines "Error: prompt is required. Use -p "your prompt"" and
    "Run './generate.sh' and see the header for full usage." and exits with
    status 1; and whenever it does not run sd-cli it either prints those
    two lines and exits with status 1, or prints "Unknown option: <word>"
    and exits with status 1, or never leaves its argument loop. *)
Theorem empty_prompt_is_rejected :
  let prompt_required :=
    GenerateSh.Exit 1
      [ String.append "Error: prompt is required. Use -p "
          (String.append GenerateSh.dquote
             (String.append "your prompt" GenerateSh.dquote));
        "Run './generate.sh' and see the header for full usage." ] in
  (forall (form : State) (st : Page.State),
      all_blank (prompt form) = true ->
      handleSubmit (Page.isGenerating st) form = None
      /\ Page.submit form st = (st, None))
  /\ (forall (form : State) (g : bool),
        prompt form = [] -> handleSubmit g form = None)
  /\ (forall dir args v,
        GenerateSh.parse args GenerateSh.defaults = GenerateSh.Done v ->
        GenerateSh.PROMPT v = EmptyString ->
        GenerateSh.main dir args = prompt_required)
  /\ (forall dir args cmd,
        GenerateSh.main dir args = GenerateSh.Run cmd ->
        exists v,
          GenerateSh.parse args GenerateSh.defaults = GenerateSh.Done v
          /\ GenerateSh.PROMPT v <> EmptyString
          /\ nth_error cmd 7 = Some "-p"
          /\ nth_error cmd 8 = Some (GenerateSh.PROMPT v))
  /\ (forall dir args,
        (exists cmd, GenerateSh.main dir args = GenerateSh.Run cmd)
        \/ GenerateSh.main dir args = prompt_required
        \/ (exists opt,
              GenerateSh.main dir args
              = GenerateSh.Exit 1 [String.append "Unknown option: " opt])
        \/ GenerateSh.main dir args = GenerateSh.Loops).
Proof.
  intros prompt_required.
  split; [| split; [| split; [| split]]].
  - intros form st H.
    assert (E : handleSubmit (Page.isGenerating st) form = None)
      by (apply handleSubmit_None; now left).
    split; [exact E | now apply submit_rejected_keeps_page].
  - intros form g H. apply handleSubmit_None. left. now rewrite H.
  - intros dir args v Hp Hn. unfold GenerateSh.main. now rewrite Hp, Hn.
  - intros dir args cmd H.
    destruct (main_Run_line _ _ _ H) as [v [Hp [Hn ->]]].
    exists v. repeat split; assumption.
  - intros dir args. unfold GenerateSh.main.
    destruct (GenerateSh.parse args GenerateSh.defaults) as [v | opt |].
    + destruct (GenerateSh.nonempty (GenerateSh.PROMPT v));
        [left; eexists; reflexivity | right; left; reflexivity].
    + right; right; left. exists opt. reflexivity.
    + right; right; right. reflexivity.
Qed.

Lemma empty_prompt_is_rejected_witness :
  Page.submit (setPrompt (lit "   ") initial) Page.initial
  = (Page.initial, None).
Proof.
  apply (proj1 empty_prompt_is_rejected
           (setPrompt (lit "   ") initial) Page.initial).
  reflexivity.
Defined.

End FrontEnds.
